(** * Biblioteca: library circulation (books, patrons, loans, fines)

    A shallow embedding of [biblioteca.py].  Python objects are mutable and
    shared: a [Prestamo] keeps references to a [Usuario] and a [Libro], and
    the same object can sit in several lists.  The embedding therefore keeps
    one object store per class ([objs_libro], [objs_usuario]) and lets the
    lists of the program hold references into them.  A Python reference
    always leads to an object; here a reference is a position in a store, and
    [bien_formado] states that every position the library holds is inside
    its store (it is preserved by every call, [invariante_ejecutar]).  The
    clock ([datetime.now()]) is an explicit argument of every operation that
    reads it. *)

From stdpp Require Import base numbers option list strings.

Local Open Scope Z_scope.

(** ** Data model *)

(** A reference to an object: its position in the store of its class. *)
Abbreviation ref := nat (only parsing).

(** A Python [str]: a sequence of Unicode code points. *)
Abbreviation str := (list N) (only parsing).

(** A naive [datetime], counted in microseconds on the time line; the
    difference of two of them is a [timedelta], also in microseconds. *)
Abbreviation datetime := Z (only parsing).
Abbreviation timedelta := Z (only parsing).

Definition MICROSEGUNDOS_POR_DIA : Z := 86400000000.

(** [timedelta.days]: a timedelta is normalised with a non-negative rest
    below one day, so [days] rounds down, also below zero. *)
Definition days (td : timedelta) : Z := td `div` MICROSEGUNDOS_POR_DIA.

Record Libro := mkLibro {
  id_libro : Z;
  titulo : str;
  autor : str;
  disponible : bool
}.

Record Usuario := mkUsuario {
  id_usuario : Z;
  nombre : str;
  multas : Z
}.

Record Prestamo := mkPrestamo {
  usuario : ref;
  libro : ref;
  fecha_prestamo : datetime;
  devuelto : bool;
  fecha_devolucion : option datetime
}.

(** ** Prestamo *)

Definition DIAS_MAXIMO : Z := 7.
Definition MULTA_POR_DIA : Z := 500.

(** [Prestamo(usuario, libro)]: no date is given, so the clock is read. *)
Definition Prestamo_init (u l : ref) (now : datetime) : Prestamo :=
  {| usuario := u; libro := l; fecha_prestamo := now;
     devuelto := false; fecha_devolucion := None |}.

(** The reference date of a loan in the words of the specification: the
    return date of a closed loan, the current moment for an active one. *)
Definition fecha_de_referencia (now : datetime) (p : Prestamo) (fr : datetime) : Prop :=
  (devuelto p = false ∧ fr = now) ∨
  (devuelto p = true ∧ fecha_devolucion p = Some fr).

Definition multa_por_dias (dias_prestados : Z) : Z :=
  if dias_prestados >? DIAS_MAXIMO
  then (dias_prestados - DIAS_MAXIMO) * MULTA_POR_DIA
  else 0.

(** A closed loan without a return date makes the subtraction raise
    ([None - datetime]); [None] stands for that exception. *)
Definition calcular_multa (now : datetime) (p : Prestamo) : option Z :=
  dias_prestados ←
    (if negb (devuelto p)
     then Some (days (now - fecha_prestamo p))
     else fd ← fecha_devolucion p; Some (days (fd - fecha_prestamo p)));
  Some (multa_por_dias dias_prestados).

(** ** The state: object stores and the lists of [Biblioteca] *)

Record Estado := mkEstado {
  objs_libro : list Libro;      (* every Libro object created so far *)
  objs_usuario : list Usuario;  (* every Usuario object created so far *)
  libros : list ref;            (* repo_libros.libros *)
  usuarios : list ref;          (* Biblioteca.usuarios *)
  prestamos : list Prestamo     (* Biblioteca.prestamos; a loan object is
                                   created by prestar_libro only and appended
                                   once, so its position is its identity *)
}.

(** [Biblioteca(RepositorioLibrosEnMemoria())] before any object exists. *)
Definition inicial : Estado :=
  {| objs_libro := []; objs_usuario := []; libros := []; usuarios := [];
     prestamos := [] |}.

(** Attribute writes. *)
Definition con_disponible (v : bool) (b : Libro) : Libro :=
  {| id_libro := id_libro b; titulo := titulo b; autor := autor b;
     disponible := v |}.

Definition sumar_multa (m : Z) (u : Usuario) : Usuario :=
  {| id_usuario := id_usuario u; nombre := nombre u; multas := multas u + m |}.

Definition cerrar (now : datetime) (p : Prestamo) : Prestamo :=
  {| usuario := usuario p; libro := libro p;
     fecha_prestamo := fecha_prestamo p;
     devuelto := true; fecha_devolucion := Some now |}.

Definition set_objs_libro (f : list Libro → list Libro) (w : Estado) : Estado :=
  {| objs_libro := f (objs_libro w); objs_usuario := objs_usuario w;
     libros := libros w; usuarios := usuarios w; prestamos := prestamos w |}.

Definition set_objs_usuario (f : list Usuario → list Usuario) (w : Estado) : Estado :=
  {| objs_libro := objs_libro w; objs_usuario := f (objs_usuario w);
     libros := libros w; usuarios := usuarios w; prestamos := prestamos w |}.

Definition set_libros (f : list ref → list ref) (w : Estado) : Estado :=
  {| objs_libro := objs_libro w; objs_usuario := objs_usuario w;
     libros := f (libros w); usuarios := usuarios w; prestamos := prestamos w |}.

Definition set_usuarios (f : list ref → list ref) (w : Estado) : Estado :=
  {| objs_libro := objs_libro w; objs_usuario := objs_usuario w;
     libros := libros w; usuarios := f (usuarios w); prestamos := prestamos w |}.

Definition set_prestamos (f : list Prestamo → list Prestamo) (w : Estado) : Estado :=
  {| objs_libro := objs_libro w; objs_usuario := objs_usuario w;
     libros := libros w; usuarios := usuarios w; prestamos := f (prestamos w) |}.

(** The constructors [Libro(id, titulo, autor, disponible)] and
    [Usuario(id, nombre)] create a new object and give its reference. *)
Definition Libro_init (id : Z) (t a : str) (d : bool) (w : Estado) : ref * Estado :=
  (length (objs_libro w),
   set_objs_libro (λ m, m ++ [mkLibro id t a d]) w).

Definition Usuario_init (id : Z) (n : str) (w : Estado) : ref * Estado :=
  (length (objs_usuario w),
   set_objs_usuario (λ m, m ++ [mkUsuario id n 0]) w).

(** ** RepositorioLibrosEnMemoria and Biblioteca *)

Definition registrar_usuario (u : ref) (w : Estado) : Estado :=
  set_usuarios (λ us, us ++ [u]) w.

Definition agregar_libro (l : ref) (w : Estado) : Estado :=
  set_libros (λ ls, ls ++ [l]) w.

(** [u.id_usuario == id_usuario], read through the reference [u].  The
    [None] branch of this and the next attribute reads is a position outside
    the store, which no reference of a well-formed state is. *)
Definition es_usuario (w : Estado) (id : Z) (u : ref) : bool :=
  match objs_usuario w !! u with
  | Some o => id_usuario o =? id
  | None => false
  end.

(** [l.id_libro == id_libro and l.disponible]. *)
Definition es_libro_disponible (w : Estado) (id : Z) (l : ref) : bool :=
  match objs_libro w !! l with
  | Some o => (id_libro o =? id) && disponible o
  | None => false
  end.

(** [next((x for x in xs if cond(x)), None)]: the first element that
    satisfies the condition. *)
Definition next_or_none {A} (cond : A → bool) (xs : list A) : option (nat * A) :=
  list_find (λ x, cond x = true) xs.

(** [if usuario and libro]: neither class defines [__bool__] or [__len__],
    so an object is true and the test is "both were found".  The loan
    returned is the one at the end of the loan list. *)
Definition prestar_libro (now : datetime) (idu idl : Z) (w : Estado)
  : option ref * Estado :=
  let usuario := snd <$> next_or_none (es_usuario w idu) (usuarios w) in
  let libro := snd <$> next_or_none (es_libro_disponible w idl) (libros w) in
  match usuario, libro with
  | Some u, Some l =>
      let prestamo := Prestamo_init u l now in
      let w1 := set_objs_libro (alter (con_disponible false) l) w in
      let w2 := set_prestamos (λ ps, ps ++ [prestamo]) w1 in
      (Some (length (prestamos w)), w2)
  | _, _ => (None, w)
  end.

(** [p.usuario.id_usuario == id_usuario and p.libro.id_libro == id_libro
    and not p.devuelto]. *)
Definition es_prestamo_activo (w : Estado) (idu idl : Z) (p : Prestamo) : bool :=
  match objs_usuario w !! usuario p, objs_libro w !! libro p with
  | Some u, Some b =>
      (id_usuario u =? idu) && (id_libro b =? idl) && negb (devuelto p)
  | _, _ => false
  end.

(** [Prestamo.devolver], on the loan at position [i]. *)
Definition devolver (now : datetime) (i : nat) (w : Estado) : Estado :=
  match prestamos w !! i with
  | Some p =>
      set_objs_libro (alter (con_disponible true) (libro p))
        (set_prestamos (alter (cerrar now) i) w)
  | None => w
  end.

(** The whole result is an [option]: [None] stands for an exception (see
    [calcular_multa]); [devolver_libro_total] shows there is none. *)
Definition devolver_libro (now : datetime) (idu idl : Z) (w : Estado)
  : option (Z * Estado) :=
  match next_or_none (es_prestamo_activo w idu idl) (prestamos w) with
  | Some (i, _) =>
      let w1 := devolver now i w in
      prestamo ← prestamos w1 !! i;
      multa ← calcular_multa now prestamo;
      Some (multa, set_objs_usuario (alter (sumar_multa multa) (usuario prestamo)) w1)
  | None => Some (0, w)
  end.

(** ** Search *)

(** [s.startswith(pre)]. *)
Fixpoint startswith (s pre : str) {struct pre} : bool :=
  match pre, s with
  | [], _ => true
  | _ :: _, [] => false
  | c :: pre', d :: s' => (c =? d)%N && startswith s' pre'
  end.

(** [sub in s]: [sub] occurs in [s] at some position. *)
Fixpoint str_in (sub s : str) : bool :=
  startswith s sub ||
  match s with
  | [] => false
  | _ :: s' => str_in sub s'
  end.

Section Busqueda.

(** [str.lower] belongs to the Python runtime, not to this program: the
    search is embedded over any such function. *)
Variable lower : str → str.

(** [criterio.lower() in l.titulo.lower() or
     criterio.lower() in l.autor.lower()]. *)
Definition coincide (criterio : str) (o : Libro) : bool :=
  str_in (lower criterio) (lower (titulo o))
  || str_in (lower criterio) (lower (autor o)).

Definition coincide_ref (w : Estado) (criterio : str) (l : ref) : bool :=
  match objs_libro w !! l with
  | Some o => coincide criterio o
  | None => false
  end.

(** The list comprehension of [buscar_libro]; [Biblioteca.buscar_libro]
    passes the call on unchanged. *)
Definition buscar_libro (criterio : str) (w : Estado) : list ref :=
  List.filter (coincide_ref w criterio) (libros w).

End Busqueda.

(** What [str.lower] does on text of the ASCII range: the letters A-Z move
    to a-z, every other character stays. *)
Definition lower_cp (c : N) : N :=
  if ((65 <=? c) && (c <=? 90))%N then (c + 32)%N else c.

Definition lower_ascii (s : str) : str := lower_cp <$> s.

Definition es_ascii (s : str) : Prop := Forall (λ c, (c < 128)%N) s.

(** The code points of a literal. *)
Definition cps (s : string) : str :=
  map Ascii.N_of_ascii (String.list_ascii_of_string s).

(** ** Programs over the library: sequences of calls *)

Inductive Op :=
  | NuevoLibro (id : Z) (t a : str) (d : bool)   (* Libro(id, t, a, d) *)
  | NuevoUsuario (id : Z) (n : str)              (* Usuario(id, n) *)
  | RegistrarUsuario (u : ref)
  | AgregarLibro (l : ref)
  | BuscarLibro (criterio : str)
  | PrestarLibro (now : datetime) (idu idl : Z)
  | DevolverLibro (now : datetime) (idu idl : Z).

(** One call.  A reference handed to [registrar_usuario] or [agregar_libro]
    is one of an object that exists; a search leaves the state alone. *)
Definition ejecutar (op : Op) (w : Estado) : option Estado :=
  match op with
  | NuevoLibro id t a d => Some (snd (Libro_init id t a d w))
  | NuevoUsuario id n => Some (snd (Usuario_init id n w))
  | RegistrarUsuario u =>
      if decide (u < length (objs_usuario w))%nat
      then Some (registrar_usuario u w) else None
  | AgregarLibro l =>
      if decide (l < length (objs_libro w))%nat
      then Some (agregar_libro l w) else None
  | BuscarLibro _ => Some w
  | PrestarLibro now idu idl => Some (snd (prestar_libro now idu idl w))
  | DevolverLibro now idu idl => snd <$> devolver_libro now idu idl w
  end.

Fixpoint correr (ops : list Op) (w : Estado) : option Estado :=
  match ops with
  | [] => Some w
  | op :: ops' => w' ← ejecutar op w; correr ops' w'
  end.

Definition alcanzable (w : Estado) : Prop :=
  ∃ ops, correr ops inicial = Some w.

(** The books handed to [agregar_libro] by a program, in call order. *)
Definition agregados (ops : list Op) : list ref :=
  omap (λ op, match op with AgregarLibro l => Some l | _ => None end) ops.

(** ** The search in the words of the specification *)

(** [s] contains [q] as a case-insensitive substring: once both are put in
    lower case, [q] occurs somewhere in [s]. *)
Definition contiene_sin_distinguir (lower : str → str) (q s : str) : Prop :=
  ∃ pre suf, lower s = pre ++ lower q ++ suf.

(** The book behind [l] has a title or an author that contains [q]. *)
Definition coincide_spec (lower : str → str) (w : Estado) (q : str) (l : ref) : Prop :=
  ∃ o, objs_libro w !! l = Some o ∧
       (contiene_sin_distinguir lower q (titulo o) ∨
        contiene_sin_distinguir lower q (autor o)).

(** ** Returning in the words of the specification *)

(** [p] is an active loan of a patron with id [idu] on a book with id
    [idl]. *)
Definition prestamo_activo_de (w : Estado) (idu idl : Z) (p : Prestamo) : Prop :=
  ∃ u b, objs_usuario w !! usuario p = Some u ∧ objs_libro w !! libro p = Some b
         ∧ id_usuario u = idu ∧ id_libro b = idl ∧ devuelto p = false.

(** ** Invariants of the state *)

(** Every reference held by the library is one of an existing object. *)
Definition bien_formado (w : Estado) : Prop :=
  (∀ l, l ∈ libros w → (l < length (objs_libro w))%nat) ∧
  (∀ u, u ∈ usuarios w → (u < length (objs_usuario w))%nat) ∧
  (∀ p, p ∈ prestamos w →
     (usuario p < length (objs_usuario w))%nat ∧
     (libro p < length (objs_libro w))%nat).

(** At most one active loan per book record. *)
Definition un_activo_por_libro (w : Estado) : Prop :=
  ∀ i j p q,
    prestamos w !! i = Some p → prestamos w !! j = Some q →
    devuelto p = false → devuelto q = false →
    libro p = libro q → i = j.

(** The book of an active loan is not available. *)
Definition activos_no_disponibles (w : Estado) : Prop :=
  ∀ p, p ∈ prestamos w → devuelto p = false →
    ∃ b, objs_libro w !! libro p = Some b ∧ disponible b = false.

Definition invariante (w : Estado) : Prop :=
  bien_formado w ∧ un_activo_por_libro w ∧ activos_no_disponibles w.

(** No two catalog records carry the same book id (the same record may
    sit in the catalog more than once). *)
Definition ids_unicos (w : Estado) : Prop :=
  ∀ r1 r2 o1 o2, r1 ∈ libros w → r2 ∈ libros w →
    objs_libro w !! r1 = Some o1 → objs_libro w !! r2 = Some o2 →
    id_libro o1 = id_libro o2 → r1 = r2.

(** The active loans of a book record. *)
Definition activos_de (l : ref) (w : Estado) : list Prestamo :=
  filter (λ p, libro p = l ∧ devuelto p = false) (prestamos w).

(** A call is well-formed when the object it is handed exists. *)
Definition op_valida (op : Op) (w : Estado) : Prop :=
  match op with
  | RegistrarUsuario u => (u < length (objs_usuario w))%nat
  | AgregarLibro l => (l < length (objs_libro w))%nat
  | _ => True
  end.

(** A call, made in state [w], that does not free a book with id [idl]: it
    does not return one (a return for the id that finds no active loan
    returns nothing) and it does not add to the catalog an available record
    that carries the id. *)
Definition no_libera (idl : Z) (op : Op) (w : Estado) : Prop :=
  match op with
  | DevolverLibro _ idu i =>
      i = idl → ∀ p, p ∈ prestamos w → ¬ prestamo_activo_de w idu idl p
  | AgregarLibro l =>
      ∀ o, objs_libro w !! l = Some o → id_libro o = idl → disponible o = false
  | _ => True
  end.

(** A program, run from [w], none of whose calls frees a book with id
    [idl]. *)
Fixpoint sin_liberar (idl : Z) (ops : list Op) (w : Estado) : Prop :=
  match ops with
  | [] => True
  | op :: ops' =>
      no_libera idl op w ∧
      ∀ w1, ejecutar op w = Some w1 → sin_liberar idl ops' w1
  end.

(** No catalog book with id [idl] can be lent. *)
Definition agotado (idl : Z) (w : Estado) : Prop :=
  (∀ r, r ∈ libros w → (r < length (objs_libro w))%nat) ∧
  (∀ r, r ∈ libros w → es_libro_disponible w idl r = false).

(** ** Sample programs *)

(** The scenario of the test suite: one patron and one book ([alta]), then
    one loan ([escenario]). *)
Definition alta : list Op :=
  [ NuevoUsuario 2 (cps "Sebastian"); RegistrarUsuario 0%nat;
    NuevoLibro 30 (cps "1984") (cps "George Orwell") true; AgregarLibro 0%nat ].

Definition escenario : list Op := alta ++ [ PrestarLibro 0 2 30 ].

(** Two book records that carry the same id (nothing checks ids on
    insertion); [dos_copias_prestadas] lends both to the same patron. *)
Definition dos_copias : list Op :=
  [ NuevoUsuario 2 (cps "Sebastian"); RegistrarUsuario 0%nat;
    NuevoLibro 30 (cps "1984") (cps "George Orwell") true; AgregarLibro 0%nat;
    NuevoLibro 30 (cps "1984") (cps "George Orwell") true; AgregarLibro 1%nat ].

Definition dos_copias_prestadas : list Op :=
  dos_copias ++ [ PrestarLibro 0 2 30; PrestarLibro 0 2 30 ].

(** Two registered patrons that carry the same id, and one book. *)
Definition dos_usuarios : list Op :=
  [ NuevoUsuario 2 (cps "Sebastian"); RegistrarUsuario 0%nat;
    NuevoUsuario 2 (cps "Gerardo"); RegistrarUsuario 1%nat;
    NuevoLibro 30 (cps "1984") (cps "George Orwell") true; AgregarLibro 0%nat ].

Definition estado_de (ops : list Op) : Estado :=
  default inicial (correr ops inicial).

(** ** Further definitions: texts, histories, sums of fines *)

(** [Libro.__str__]: [f"{self.titulo} ({self.autor}) - {estado}"]. *)
Definition Libro_str (b : Libro) : str :=
  let estado := if disponible b then cps "Disponible" else cps "Prestado" in
  titulo b ++ cps " (" ++ autor b ++ cps ") - " ++ estado.

(** The patrons handed to [registrar_usuario] by a program, in call order. *)
Definition registrados (ops : list Op) : list ref :=
  omap (λ op, match op with RegistrarUsuario u => Some u | _ => None end) ops.

(** The fine a closed loan was charged: what [calcular_multa] gives for it;
    an active loan has been charged nothing. *)
Definition multa_cobrada (p : Prestamo) : Z :=
  match devuelto p, fecha_devolucion p with
  | true, Some fd => multa_por_dias (days (fd - fecha_prestamo p))
  | _, _ => 0
  end.

(** The fines charged on the loans of the patron object [u]. *)
Definition multas_cobradas (u : ref) (ps : list Prestamo) : Z :=
  foldr (λ p acc, (if decide (usuario p = u) then multa_cobrada p else 0) + acc)
        0 ps.

(** A loan is either active without a return date or closed with one. *)
Definition fechas_coherentes (p : Prestamo) : Prop :=
  (devuelto p = false ∧ fecha_devolucion p = None) ∨
  (devuelto p = true ∧ ∃ fd, fecha_devolucion p = Some fd).

(** What stays of a loan from one state to a later one: patron, book and
    loan date, and everything once the loan is closed. *)
Definition continua (p p' : Prestamo) : Prop :=
  usuario p' = usuario p ∧ libro p' = libro p ∧
  fecha_prestamo p' = fecha_prestamo p ∧
  (devuelto p = true → p' = p).

(** A program that creates every book available, the default of
    [Libro.__init__]. *)
Definition crea_disponibles (ops : list Op) : Prop :=
  Forall (λ op, match op with NuevoLibro _ _ _ d => d = true | _ => True end) ops.

(** * Properties *)

(** ** The first match of a generator *)

Lemma next_or_none_Some {A} (cond : A → bool) (xs : list A) i x :
  next_or_none cond xs = Some (i, x) ↔
  xs !! i = Some x ∧ cond x = true ∧
  ∀ j y, xs !! j = Some y → (j < i)%nat → cond y = false.
Proof.
  unfold next_or_none. rewrite list_find_Some. split.
  - intros (Hi & Hx & Hlt). repeat split; [done..|].
    intros j y Hj Hji. specialize (Hlt j y Hj Hji). by destruct (cond y).
  - intros (Hi & Hx & Hlt). repeat split; [done..|].
    intros j y Hj Hji. rewrite (Hlt j y Hj Hji). discriminate.
Qed.

Lemma next_or_none_None {A} (cond : A → bool) (xs : list A) :
  next_or_none cond xs = None ↔ ∀ x, x ∈ xs → cond x = false.
Proof.
  unfold next_or_none. rewrite list_find_None, Forall_forall. split.
  - intros H x Hx. specialize (H x Hx). by destruct (cond x).
  - intros H x Hx. rewrite (H x Hx). discriminate.
Qed.

Lemma next_or_none_is_Some {A} (cond : A → bool) (xs : list A) x :
  x ∈ xs → cond x = true → is_Some (next_or_none cond xs).
Proof.
  intros Hx Hc. destruct (next_or_none cond xs) as [r|] eqn:E; [by eexists|].
  rewrite next_or_none_None in E. rewrite (E x Hx) in Hc. discriminate.
Qed.

(** ** Fines *)

Lemma days_unique (td d : Z) :
  d * MICROSEGUNDOS_POR_DIA ≤ td < (d + 1) * MICROSEGUNDOS_POR_DIA →
  days td = d.
Proof.
  intros H. unfold days. symmetry.
  apply (Z.div_unique td MICROSEGUNDOS_POR_DIA d (td - d * MICROSEGUNDOS_POR_DIA));
    unfold MICROSEGUNDOS_POR_DIA in *; lia.
Qed.

Lemma multa_por_dias_nonneg (d : Z) : 0 ≤ multa_por_dias d.
Proof.
  unfold multa_por_dias, DIAS_MAXIMO, MULTA_POR_DIA.
  destruct (Z.gtb_spec d 7); lia.
Qed.

Lemma calcular_multa_referencia now p fr :
  fecha_de_referencia now p fr →
  calcular_multa now p = Some (multa_por_dias (days (fr - fecha_prestamo p))).
Proof.
  unfold calcular_multa.
  intros [[-> ->] | [-> ->]]; reflexivity.
Qed.

Lemma calcular_multa_cerrar now now' p :
  calcular_multa now' (cerrar now p)
  = Some (multa_por_dias (days (now - fecha_prestamo p))).
Proof. reflexivity. Qed.

(** C2.  The fine is computed from the whole days between the loan date and
    the reference date (the return date of a closed loan, the clock for an
    active one): with [d] whole days elapsed it is [(d - 7) * 500] when
    [d > 7] and [0] otherwise.  Ten days give 1500, seven days or fewer give
    0, eight days give 500. *)
Theorem calcular_multa_dias (now : datetime) (p : Prestamo) (fr : datetime) :
  fecha_de_referencia now p fr →
  let transcurrido := fr - fecha_prestamo p in
  (∀ d, d * MICROSEGUNDOS_POR_DIA ≤ transcurrido < (d + 1) * MICROSEGUNDOS_POR_DIA →
        calcular_multa now p = Some (if decide (d > 7) then (d - 7) * 500 else 0))
  ∧ (10 * MICROSEGUNDOS_POR_DIA ≤ transcurrido < 11 * MICROSEGUNDOS_POR_DIA →
        calcular_multa now p = Some 1500)
  ∧ (transcurrido < 8 * MICROSEGUNDOS_POR_DIA → calcular_multa now p = Some 0)
  ∧ (8 * MICROSEGUNDOS_POR_DIA ≤ transcurrido < 9 * MICROSEGUNDOS_POR_DIA →
        calcular_multa now p = Some 500).
Proof.
  intros Hfr transcurrido.
  assert (Hgen : ∀ d,
    d * MICROSEGUNDOS_POR_DIA ≤ transcurrido < (d + 1) * MICROSEGUNDOS_POR_DIA →
    calcular_multa now p = Some (if decide (d > 7) then (d - 7) * 500 else 0)).
  { intros d Hd. rewrite (calcular_multa_referencia _ _ _ Hfr).
    fold transcurrido. rewrite (days_unique _ _ Hd).
    unfold multa_por_dias, DIAS_MAXIMO, MULTA_POR_DIA.
    destruct (Z.gtb_spec d 7); case_decide; (reflexivity || lia). }
  split; [exact Hgen|]. split; [|split].
  - intros H. apply (Hgen 10 H).
  - intros H.
    rewrite (Hgen (transcurrido `div` MICROSEGUNDOS_POR_DIA)).
    + case_decide; [|reflexivity]. exfalso.
      assert (transcurrido `div` MICROSEGUNDOS_POR_DIA < 8); [|lia].
      apply Z.div_lt_upper_bound; unfold MICROSEGUNDOS_POR_DIA in *; lia.
    + pose proof (Z.div_mod transcurrido MICROSEGUNDOS_POR_DIA) as Hdm.
      pose proof (Z.mod_pos_bound transcurrido MICROSEGUNDOS_POR_DIA) as Hm.
      unfold MICROSEGUNDOS_POR_DIA in *. lia.
  - intros H. apply (Hgen 8 H).
Qed.

Lemma calcular_multa_dias_witness :
  calcular_multa 0 (cerrar (10 * MICROSEGUNDOS_POR_DIA + 5) (Prestamo_init 0%nat 0%nat 0))
  = Some 1500.
Proof.
  refine (proj1 (proj2 (calcular_multa_dias 0 _ (10 * MICROSEGUNDOS_POR_DIA + 5) _)) _).
  - right. split; reflexivity.
  - simpl. unfold MICROSEGUNDOS_POR_DIA. lia.
Defined.

(** ** Returning a book *)

Lemma devolver_libro_ninguno now idu idl w :
  next_or_none (es_prestamo_activo w idu idl) (prestamos w) = None →
  devolver_libro now idu idl w = Some (0, w).
Proof. unfold devolver_libro. by intros ->. Qed.

Lemma devolver_libro_encontrado now idu idl w i p :
  next_or_none (es_prestamo_activo w idu idl) (prestamos w) = Some (i, p) →
  let m := multa_por_dias (days (now - fecha_prestamo p)) in
  devolver_libro now idu idl w
  = Some (m, {| objs_libro := alter (con_disponible true) (libro p) (objs_libro w);
                objs_usuario := alter (sumar_multa m) (usuario p) (objs_usuario w);
                libros := libros w;
                usuarios := usuarios w;
                prestamos := alter (cerrar now) i (prestamos w) |}).
Proof.
  intros Hfind m. unfold devolver_libro. rewrite Hfind.
  apply next_or_none_Some in Hfind as (Hi & _ & _).
  unfold devolver. rewrite Hi. simpl.
  rewrite list_lookup_alter_eq, Hi. reflexivity.
Qed.

Lemma devolver_libro_total now idu idl w :
  ∃ m w', devolver_libro now idu idl w = Some (m, w') ∧ 0 ≤ m.
Proof.
  destruct (next_or_none (es_prestamo_activo w idu idl) (prestamos w))
    as [[i p]|] eqn:E.
  - eexists _, _. split; [by apply devolver_libro_encontrado|].
    apply multa_por_dias_nonneg.
  - eexists _, _. split; [by apply devolver_libro_ninguno|]. lia.
Qed.

Lemma es_prestamo_activo_true w idu idl p :
  es_prestamo_activo w idu idl p = true ↔ prestamo_activo_de w idu idl p.
Proof.
  unfold es_prestamo_activo, prestamo_activo_de. split.
  - destruct (objs_usuario w !! usuario p) as [u|]; [|done].
    destruct (objs_libro w !! libro p) as [b|]; [|done].
    rewrite !andb_true_iff, negb_true_iff, !Z.eqb_eq.
    intros [[? ?] ?]. by exists u, b.
  - intros (u & b & -> & -> & <- & <- & ->). by rewrite !Z.eqb_refl.
Qed.

Lemma es_prestamo_activo_false w idu idl p :
  es_prestamo_activo w idu idl p = false ↔ ¬ prestamo_activo_de w idu idl p.
Proof.
  rewrite <- es_prestamo_activo_true.
  destruct (es_prestamo_activo w idu idl p); split; try done.
  all: intros H; by destruct H.
Qed.

(** C3.  When some active loan matches the pair of ids, [devolver_libro]
    takes the first one: it marks it returned with the current time as its
    return date, makes its book available again, adds the fine computed for
    the closed loan to the balance of its patron and returns that fine;
    the other loans and both lists are left as they were. *)
Theorem devolver_libro_activo (now : datetime) (idu idl : Z) (w : Estado) (q : Prestamo) :
  q ∈ prestamos w →
  prestamo_activo_de w idu idl q →
  ∃ i p m w' u b,
    (* the loan the code picks: the first active match *)
    prestamos w !! i = Some p ∧ prestamo_activo_de w idu idl p ∧
    (∀ j r, prestamos w !! j = Some r → (j < i)%nat →
            ¬ prestamo_activo_de w idu idl r) ∧
    objs_usuario w !! usuario p = Some u ∧ objs_libro w !! libro p = Some b ∧
    devolver_libro now idu idl w = Some (m, w') ∧
    (* the loan is closed now *)
    prestamos w' !! i
      = Some {| usuario := usuario p; libro := libro p;
                fecha_prestamo := fecha_prestamo p;
                devuelto := true; fecha_devolucion := Some now |} ∧
    (∀ j, j ≠ i → prestamos w' !! j = prestamos w !! j) ∧
    (* its book is available again *)
    objs_libro w' !! libro p
      = Some {| id_libro := id_libro b; titulo := titulo b; autor := autor b;
                disponible := true |} ∧
    (∀ l, l ≠ libro p → objs_libro w' !! l = objs_libro w !! l) ∧
    (* the fine of the closed loan goes to the patron and is returned *)
    (∀ now' p', prestamos w' !! i = Some p' → calcular_multa now' p' = Some m) ∧
    objs_usuario w' !! usuario p
      = Some {| id_usuario := id_usuario u; nombre := nombre u;
                multas := multas u + m |} ∧
    (∀ v, v ≠ usuario p → objs_usuario w' !! v = objs_usuario w !! v) ∧
    libros w' = libros w ∧ usuarios w' = usuarios w.
Proof.
  intros Hq Hact%es_prestamo_activo_true.
  destruct (next_or_none_is_Some _ _ _ Hq Hact) as [[i p] Hfind].
  pose proof (devolver_libro_encontrado now _ _ _ _ _ Hfind) as Hdev.
  apply next_or_none_Some in Hfind as (Hi & Hp%es_prestamo_activo_true & Hfirst).
  assert (Hfirst' : ∀ j r, prestamos w !! j = Some r → (j < i)%nat →
                           ¬ prestamo_activo_de w idu idl r).
  { intros j r Hj Hji. apply es_prestamo_activo_false. by apply (Hfirst j r). }
  destruct Hp as (u & b & Hu & Hb & Hp).
  assert (Hpact : prestamo_activo_de w idu idl p) by (by exists u, b).
  simpl in Hdev.
  assert (Hcl : alter (cerrar now) i (prestamos w) !! i = Some (cerrar now p)).
  { by rewrite list_lookup_alter_eq, Hi. }
  assert (Hb' : alter (con_disponible true) (libro p) (objs_libro w) !! libro p
                = Some (con_disponible true b)).
  { by rewrite list_lookup_alter_eq, Hb. }
  assert (Hu' : ∀ m, alter (sumar_multa m) (usuario p) (objs_usuario w) !! usuario p
                = Some (sumar_multa m u)).
  { intros m. by rewrite list_lookup_alter_eq, Hu. }
  eexists i, p, _, _, u, b.
  split; [exact Hi|]. split; [exact Hpact|]. split; [exact Hfirst'|].
  split; [exact Hu|]. split; [exact Hb|]. split; [exact Hdev|].
  split; [exact Hcl|].
  split; [intros j Hj; by apply list_lookup_alter_ne|].
  split; [exact Hb'|].
  split; [intros l Hl; by apply list_lookup_alter_ne|].
  split.
  { intros now' p' Hp'. simpl in Hp'. rewrite Hcl in Hp'. injection Hp' as <-.
    apply calcular_multa_cerrar. }
  split; [apply Hu'|].
  split; [intros v Hv; by apply list_lookup_alter_ne|].
  split; reflexivity.
Qed.

Lemma devolver_libro_activo_witness :
  ∃ i p m w' u b,
    prestamos (estado_de escenario) !! i = Some p ∧
    objs_usuario (estado_de escenario) !! usuario p = Some u ∧
    objs_libro (estado_de escenario) !! libro p = Some b ∧
    devolver_libro (10 * MICROSEGUNDOS_POR_DIA) 2 30 (estado_de escenario)
      = Some (m, w') ∧
    prestamos w' !! i
      = Some (mkPrestamo (usuario p) (libro p) (fecha_prestamo p) true
                (Some (10 * MICROSEGUNDOS_POR_DIA))) ∧
    objs_libro w' !! libro p
      = Some (mkLibro (id_libro b) (titulo b) (autor b) true) ∧
    objs_usuario w' !! usuario p
      = Some (mkUsuario (id_usuario u) (nombre u) (multas u + m)).
Proof.
  destruct (devolver_libro_activo (10 * MICROSEGUNDOS_POR_DIA) 2 30
              (estado_de escenario) (Prestamo_init 0%nat 0%nat 0))
    as (i & p & m & w' & u & b & Hi & _ & _ & Hu & Hb & Hdev & Hp' & _ & Hb'
        & _ & _ & Hu' & _);
    [by left|by eexists _, _|].
  by exists i, p, m, w', u, b.
Defined.

Lemma lookup_alter_campo {A B} (g : A → B) (f : A → A) (m : list A) i r :
  (∀ x, g (f x) = g x) → g <$> alter f i m !! r = g <$> m !! r.
Proof.
  intros Hg. rewrite list_lookup_alter. case_decide; [subst|done].
  destruct (m !! r); simpl; [by rewrite Hg|done].
Qed.

Lemma es_prestamo_activo_ext w w' idu idl q :
  (∀ r, id_usuario <$> objs_usuario w' !! r = id_usuario <$> objs_usuario w !! r) →
  (∀ r, id_libro <$> objs_libro w' !! r = id_libro <$> objs_libro w !! r) →
  es_prestamo_activo w' idu idl q = es_prestamo_activo w idu idl q.
Proof.
  intros Hu Hb. unfold es_prestamo_activo.
  specialize (Hu (usuario q)). specialize (Hb (libro q)).
  destruct (objs_usuario w' !! usuario q), (objs_usuario w !! usuario q);
    simplify_eq/=; [|done..].
  destruct (objs_libro w' !! libro q), (objs_libro w !! libro q);
    simplify_eq/=; [|done..].
  congruence.
Qed.

Lemma devolver_libro_usuarios now idu idl w m w' :
  devolver_libro now idu idl w = Some (m, w') →
  ∀ u o, objs_usuario w !! u = Some o →
    ∃ o', objs_usuario w' !! u = Some o' ∧ id_usuario o' = id_usuario o ∧
          nombre o' = nombre o ∧ multas o ≤ multas o'.
Proof.
  intros Hdev u o Hu.
  destruct (next_or_none (es_prestamo_activo w idu idl) (prestamos w))
    as [[i p]|] eqn:E.
  - rewrite (devolver_libro_encontrado now _ _ _ _ _ E) in Hdev.
    injection Hdev as <- <-. simpl.
    rewrite list_lookup_alter. case_decide as Hup.
    + rewrite Hup, Hu. eexists. split; [reflexivity|]. simpl.
      pose proof (multa_por_dias_nonneg (days (now - fecha_prestamo p))).
      repeat split; lia.
    + exists o. split; [done|]. split; [done|]. split; [done|]. lia.
  - rewrite (devolver_libro_ninguno now _ _ _ E) in Hdev.
    injection Hdev as <- <-. exists o. split; [done|]. split; [done|]. split; [done|]. lia.
Qed.

(** C10.  The fine is never negative, whatever the two dates: a reference
    date before the loan date gives 0.  [devolver_libro] always returns, its
    result is not negative, and no balance is lower after the call. *)
Theorem multa_no_negativa :
  (∀ now p fr, fecha_de_referencia now p fr →
     ∃ m, calcular_multa now p = Some m ∧ 0 ≤ m ∧
          (fr < fecha_prestamo p → m = 0))
  ∧ (∀ now idu idl w,
       ∃ m w', devolver_libro now idu idl w = Some (m, w') ∧ 0 ≤ m ∧
               ∀ u o, objs_usuario w !! u = Some o →
                 ∃ o', objs_usuario w' !! u = Some o' ∧ multas o ≤ multas o').
Proof.
  split.
  - intros now p fr Hfr. eexists. split; [by apply calcular_multa_referencia|].
    split; [apply multa_por_dias_nonneg|].
    intros Hlt. unfold multa_por_dias, DIAS_MAXIMO.
    destruct (Z.gtb_spec (days (fr - fecha_prestamo p)) 7) as [Hgt|]; [|done].
    exfalso. unfold days in Hgt.
    assert ((fr - fecha_prestamo p) `div` MICROSEGUNDOS_POR_DIA < 0); [|lia].
    apply Z.div_lt_upper_bound; unfold MICROSEGUNDOS_POR_DIA; lia.
  - intros now idu idl w.
    destruct (devolver_libro_total now idu idl w) as (m & w' & Hdev & Hm).
    exists m, w'. split; [done|]. split; [done|].
    intros u o Hu.
    destruct (devolver_libro_usuarios _ _ _ _ _ _ Hdev u o Hu) as (o' & ? & _ & _ & ?).
    by exists o'.
Qed.

Lemma multa_no_negativa_witness :
  ∃ m, calcular_multa 0 (cerrar (-5) (Prestamo_init 0%nat 0%nat 0)) = Some m
       ∧ 0 ≤ m ∧ (-5 < 0 → m = 0).
Proof.
  apply (proj1 multa_no_negativa 0 (cerrar (-5) (Prestamo_init 0%nat 0%nat 0)) (-5)).
  right. split; reflexivity.
Defined.

Lemma devolver_libro_ids now idu idl w m w' :
  devolver_libro now idu idl w = Some (m, w') →
  (∀ r, id_usuario <$> objs_usuario w' !! r = id_usuario <$> objs_usuario w !! r) ∧
  (∀ r, id_libro <$> objs_libro w' !! r = id_libro <$> objs_libro w !! r).
Proof.
  intros Hdev.
  destruct (next_or_none (es_prestamo_activo w idu idl) (prestamos w))
    as [[i p]|] eqn:E.
  - rewrite (devolver_libro_encontrado now _ _ _ _ _ E) in Hdev.
    injection Hdev as <- <-. simpl.
    split; intros r; by apply lookup_alter_campo.
  - rewrite (devolver_libro_ninguno now _ _ _ E) in Hdev.
    by injection Hdev as <- <-.
Qed.

Lemma devolver_libro_un_activo (now1 now2 : datetime) (idu idl : Z) (w : Estado) :
  (∀ i j p q, prestamos w !! i = Some p → prestamos w !! j = Some q →
     prestamo_activo_de w idu idl p →
     prestamo_activo_de w idu idl q → i = j) →
  ∃ m1 w1,
    devolver_libro now1 idu idl w = Some (m1, w1) ∧
    (∀ q, q ∈ prestamos w1 → ¬ prestamo_activo_de w1 idu idl q) ∧
    devolver_libro now2 idu idl w1 = Some (0, w1).
Proof.
  intros Huniq.
  destruct (devolver_libro_total now1 idu idl w) as (m1 & w1 & Hdev & _).
  exists m1, w1. split; [exact Hdev|].
  assert (Hnone : ∀ q, q ∈ prestamos w1 → es_prestamo_activo w1 idu idl q = false).
  { destruct (devolver_libro_ids _ _ _ _ _ _ Hdev) as [Hu Hb].
    intros q Hq. rewrite (es_prestamo_activo_ext w w1 idu idl q Hu Hb).
    destruct (next_or_none (es_prestamo_activo w idu idl) (prestamos w))
      as [[i p]|] eqn:E.
    - rewrite (devolver_libro_encontrado now1 _ _ _ _ _ E) in Hdev.
      injection Hdev as <- <-. simpl in Hq.
      apply next_or_none_Some in E as (Hi & Hp & _).
      apply list_elem_of_lookup in Hq as [j Hj].
      rewrite list_lookup_alter in Hj. case_decide as Hij.
      + rewrite Hi in Hj. injection Hj as <-.
        unfold es_prestamo_activo. simpl.
        destruct (objs_usuario w !! usuario p); [|done].
        destruct (objs_libro w !! libro p); [|done].
        by rewrite andb_false_r.
      + destruct (es_prestamo_activo w idu idl q) eqn:Hact; [|done].
        destruct Hij. apply (Huniq i j p q); by try apply es_prestamo_activo_true.
    - rewrite (devolver_libro_ninguno now1 _ _ _ E) in Hdev.
      injection Hdev as <- <-.
      by apply (proj1 (next_or_none_None _ _) E). }
  split; [intros q Hq; by apply es_prestamo_activo_false, Hnone|].
  apply devolver_libro_ninguno. by apply next_or_none_None.
Qed.

(** ** Lending a book *)

Lemma es_usuario_true w id u :
  es_usuario w id u = true ↔
  ∃ o, objs_usuario w !! u = Some o ∧ id_usuario o = id.
Proof.
  unfold es_usuario. destruct (objs_usuario w !! u) as [o|].
  - rewrite Z.eqb_eq. split.
    + intros H. by exists o.
    + by intros (o' & [= <-] & H).
  - split; [done|]. by intros (o & ? & _).
Qed.

Lemma es_libro_disponible_true w id l :
  es_libro_disponible w id l = true ↔
  ∃ o, objs_libro w !! l = Some o ∧ id_libro o = id ∧ disponible o = true.
Proof.
  unfold es_libro_disponible. destruct (objs_libro w !! l) as [o|].
  - rewrite andb_true_iff, Z.eqb_eq. split.
    + intros H. by exists o.
    + by intros (o' & [= <-] & H).
  - split; [done|]. by intros (o & ? & _).
Qed.

Lemma prestar_libro_sin_usuario now idu idl w :
  next_or_none (es_usuario w idu) (usuarios w) = None →
  prestar_libro now idu idl w = (None, w).
Proof. unfold prestar_libro. by intros ->. Qed.

Lemma prestar_libro_sin_libro now idu idl w :
  next_or_none (es_libro_disponible w idl) (libros w) = None →
  prestar_libro now idu idl w = (None, w).
Proof.
  unfold prestar_libro. intros ->.
  by destruct (next_or_none (es_usuario w idu) (usuarios w)).
Qed.

Lemma prestar_libro_encontrados now idu idl w iu u il l :
  next_or_none (es_usuario w idu) (usuarios w) = Some (iu, u) →
  next_or_none (es_libro_disponible w idl) (libros w) = Some (il, l) →
  prestar_libro now idu idl w
  = (Some (length (prestamos w)),
     {| objs_libro := alter (con_disponible false) l (objs_libro w);
        objs_usuario := objs_usuario w;
        libros := libros w;
        usuarios := usuarios w;
        prestamos := prestamos w ++ [Prestamo_init u l now] |}).
Proof. unfold prestar_libro. by intros -> ->. Qed.

(** C5.  [prestar_libro] returns nothing and leaves the whole state as it
    was when no registered patron has the id, when no catalog book has the
    id, or when every catalog book with the id is unavailable. *)
Theorem prestar_libro_falla (now : datetime) (idu idl : Z) (w : Estado) :
  (∀ u o, u ∈ usuarios w → objs_usuario w !! u = Some o → id_usuario o ≠ idu)
  ∨ (∀ l o, l ∈ libros w → objs_libro w !! l = Some o → id_libro o ≠ idl)
  ∨ (∀ l o, l ∈ libros w → objs_libro w !! l = Some o →
            id_libro o = idl → disponible o = false) →
  prestar_libro now idu idl w = (None, w).
Proof.
  intros [Hu | Hl].
  - apply prestar_libro_sin_usuario, next_or_none_None.
    intros u Hin. destruct (es_usuario w idu u) eqn:E; [|done].
    apply es_usuario_true in E as (o & Ho & Hid). by destruct (Hu u o).
  - apply prestar_libro_sin_libro, next_or_none_None.
    intros l Hin. destruct (es_libro_disponible w idl l) eqn:E; [|done].
    apply es_libro_disponible_true in E as (o & Ho & Hid & Hd).
    destruct Hl as [Hl | Hl].
    + by destruct (Hl l o).
    + rewrite (Hl l o Hin Ho Hid) in Hd. discriminate.
Qed.

Lemma prestar_libro_falla_witness :
  prestar_libro 7 2 30 (estado_de escenario) = (None, estado_de escenario).
Proof.
  apply prestar_libro_falla. right. right.
  intros l o Hl Ho _. apply list_elem_of_singleton in Hl. subst l.
  simpl in Ho. injection Ho as <-. reflexivity.
Defined.

(** ** Invariants *)

Lemma invariante_inicial : invariante inicial.
Proof.
  split; [|split].
  - split; [|split]; intros x H; by apply elem_of_nil in H.
  - intros i j p q H. simpl in H. by rewrite lookup_nil in H.
  - intros p H. by apply elem_of_nil in H.
Qed.

Lemma invariante_Libro_init id t a d w :
  invariante w → invariante (snd (Libro_init id t a d w)).
Proof.
  intros ((Hl & Hu & Hp) & Huno & Hact). simpl.
  split; [|split].
  - split; [|split]; simpl.
    + intros l Hin. rewrite length_app. specialize (Hl l Hin). lia.
    + exact Hu.
    + intros p Hin. rewrite length_app. specialize (Hp p Hin). lia.
  - exact Huno.
  - intros p Hin Hd. simpl in *.
    destruct (Hact p Hin Hd) as (b & Hb & Hdis).
    exists b. split; [by apply lookup_app_l_Some|done].
Qed.

Lemma invariante_Usuario_init id n w :
  invariante w → invariante (snd (Usuario_init id n w)).
Proof.
  intros ((Hl & Hu & Hp) & Huno & Hact). simpl.
  split; [|split; [exact Huno|exact Hact]].
  split; [|split]; simpl.
  - exact Hl.
  - intros u Hin. rewrite length_app. specialize (Hu u Hin). lia.
  - intros p Hin. rewrite length_app. specialize (Hp p Hin). lia.
Qed.

Lemma invariante_registrar_usuario u w :
  (u < length (objs_usuario w))%nat →
  invariante w → invariante (registrar_usuario u w).
Proof.
  intros Hlt ((Hl & Hu & Hp) & Huno & Hact).
  split; [|split; [exact Huno|exact Hact]].
  split; [|split]; simpl; [exact Hl| |exact Hp].
  intros v [Hin | Hin%list_elem_of_singleton]%elem_of_app; [by apply Hu|by subst].
Qed.

Lemma invariante_agregar_libro l w :
  (l < length (objs_libro w))%nat →
  invariante w → invariante (agregar_libro l w).
Proof.
  intros Hlt ((Hl & Hu & Hp) & Huno & Hact).
  split; [|split; [exact Huno|exact Hact]].
  split; [|split]; simpl; [|exact Hu|exact Hp].
  intros v [Hin | Hin%list_elem_of_singleton]%elem_of_app; [by apply Hl|by subst].
Qed.

Lemma invariante_prestar_libro now idu idl w :
  invariante w → invariante (snd (prestar_libro now idu idl w)).
Proof.
  intros Hinv.
  destruct (next_or_none (es_usuario w idu) (usuarios w)) as [[iu u]|] eqn:Eu;
    [|by rewrite prestar_libro_sin_usuario].
  destruct (next_or_none (es_libro_disponible w idl) (libros w)) as [[il l]|] eqn:El;
    [|by rewrite prestar_libro_sin_libro].
  rewrite (prestar_libro_encontrados now _ _ _ _ _ _ _ Eu El). simpl.
  apply next_or_none_Some in Eu as (_ & Hu & _).
  apply next_or_none_Some in El as (_ & Hl & _).
  apply es_usuario_true in Hu as (ou & Hou & _).
  apply es_libro_disponible_true in Hl as (ol & Hol & _ & Hdisp).
  destruct Hinv as ((Hwl & Hwu & Hwp) & Huno & Hact).
  split; [|split].
  - split; [|split]; simpl.
    + intros r Hin. rewrite length_alter. by apply Hwl.
    + exact Hwu.
    + intros p [Hin | Hin%list_elem_of_singleton]%elem_of_app;
        rewrite length_alter.
      * by apply Hwp.
      * subst p. simpl. split; by eapply lookup_lt_Some.
  - intros i j p q Hi Hj Hp Hq Hpq. simpl in Hi, Hj.
    assert (Hviejo : ∀ k r, prestamos w !! k = Some r → devuelto r = false →
                            libro r ≠ l).
    { intros k r Hk Hr Hrl.
      destruct (Hact r (list_elem_of_lookup_2 _ _ _ Hk) Hr) as (b & Hb & Hbd).
      rewrite Hrl, Hol in Hb. injection Hb as <-. congruence. }
    apply lookup_app_Some in Hi as [Hi | [Hi Hi']];
      apply lookup_app_Some in Hj as [Hj | [Hj Hj']].
    + by apply (Huno i j p q).
    + apply list_lookup_singleton_Some in Hj' as [_ <-]. simpl in Hpq.
      by destruct (Hviejo i p).
    + apply list_lookup_singleton_Some in Hi' as [_ <-]. simpl in Hpq.
      by destruct (Hviejo j q).
    + apply list_lookup_singleton_Some in Hi' as [Hi' _].
      apply list_lookup_singleton_Some in Hj' as [Hj' _]. lia.
  - intros p Hin Hp. simpl in *.
    assert (Hcaso : libro p = l ∨
                    (libro p ≠ l ∧ p ∈ prestamos w)).
    { apply elem_of_app in Hin as [Hin | Hin%list_elem_of_singleton].
      - destruct (decide (libro p = l)); auto.
      - subst p. by left. }
    destruct Hcaso as [-> | [Hne Hin']].
    + exists (con_disponible false ol). split; [|done].
      by rewrite list_lookup_alter_eq, Hol.
    + destruct (Hact p Hin' Hp) as (b & Hb & Hbd).
      exists b. split; [|done]. by rewrite list_lookup_alter_ne.
Qed.

Lemma invariante_devolver_libro now idu idl w m w' :
  devolver_libro now idu idl w = Some (m, w') →
  invariante w → invariante w'.
Proof.
  intros Hdev Hinv.
  destruct (next_or_none (es_prestamo_activo w idu idl) (prestamos w))
    as [[i p]|] eqn:E.
  2: { rewrite (devolver_libro_ninguno now _ _ _ E) in Hdev.
       by injection Hdev as <- <-. }
  rewrite (devolver_libro_encontrado now _ _ _ _ _ E) in Hdev.
  injection Hdev as <- <-.
  apply next_or_none_Some in E as (Hi & Hp & _).
  apply es_prestamo_activo_true in Hp as (u & b & Hu & Hb & _ & _ & Hpd).
  destruct Hinv as ((Hwl & Hwu & Hwp) & Huno & Hact).
  assert (Hviejo : ∀ j q, alter (cerrar now) i (prestamos w) !! j = Some q →
            (j = i ∧ q = cerrar now p) ∨ (j ≠ i ∧ prestamos w !! j = Some q)).
  { intros j q Hj. rewrite list_lookup_alter in Hj. case_decide as Hij.
    - left. rewrite Hi in Hj. injection Hj as <-. by split.
    - right. by split. }
  split; [|split].
  - split; [|split]; simpl.
    + intros r Hin. rewrite length_alter. by apply Hwl.
    + intros r Hin. rewrite length_alter. by apply Hwu.
    + intros q [j Hj]%list_elem_of_lookup. rewrite !length_alter.
      destruct (Hviejo j q Hj) as [[_ ->] | [_ Hq]]; simpl.
      * apply Hwp. by eapply list_elem_of_lookup_2.
      * apply Hwp. by eapply list_elem_of_lookup_2.
  - intros j k q r Hj Hk Hq Hr Hqr. simpl in Hj, Hk.
    destruct (Hviejo j q Hj) as [[_ ->] | [_ Hj']]; [discriminate|].
    destruct (Hviejo k r Hk) as [[_ ->] | [_ Hk']]; [discriminate|].
    by apply (Huno j k q r).
  - intros q [j Hj]%list_elem_of_lookup Hq. simpl in *.
    destruct (Hviejo j q Hj) as [[_ ->] | [Hne Hj']]; [discriminate|].
    destruct (Hact q (list_elem_of_lookup_2 _ _ _ Hj') Hq) as (bq & Hbq & Hbqd).
    exists bq. split; [|done]. rewrite list_lookup_alter_ne; [done|].
    intros Hlib. apply Hne. by apply (Huno j i q p).
Qed.

Lemma invariante_ejecutar op w w' :
  ejecutar op w = Some w' → invariante w → invariante w'.
Proof.
  destruct op as [id t a d|id n|u|l|c|now idu idl|now idu idl]; simpl.
  - intros [= <-]. apply invariante_Libro_init.
  - intros [= <-]. apply invariante_Usuario_init.
  - case_decide; [|done]. intros [= <-]. by apply invariante_registrar_usuario.
  - case_decide; [|done]. intros [= <-]. by apply invariante_agregar_libro.
  - by intros [= <-].
  - intros [= <-]. apply invariante_prestar_libro.
  - destruct (devolver_libro now idu idl w) as [[m w1]|] eqn:E; [|done].
    intros [= <-]. by eapply invariante_devolver_libro.
Qed.

Lemma invariante_correr ops w w' :
  correr ops w = Some w' → invariante w → invariante w'.
Proof.
  revert w. induction ops as [|op ops IH]; intros w; simpl.
  - by intros [= <-].
  - destruct (ejecutar op w) as [w1|] eqn:E; [|done]. simpl.
    intros Hrun Hinv. apply (IH w1 Hrun). by eapply invariante_ejecutar.
Qed.

Lemma invariante_alcanzable w : alcanzable w → invariante w.
Proof.
  intros [ops Hrun]. eapply invariante_correr; [exact Hrun|].
  apply invariante_inicial.
Qed.

(** ** The effect of one call, case by case *)

Lemma prestar_libro_casos now idu idl w :
  snd (prestar_libro now idu idl w) = w ∨
  ∃ u l ou ol,
    u ∈ usuarios w ∧ l ∈ libros w ∧
    objs_usuario w !! u = Some ou ∧ objs_libro w !! l = Some ol ∧
    disponible ol = true ∧
    snd (prestar_libro now idu idl w)
    = {| objs_libro := alter (con_disponible false) l (objs_libro w);
         objs_usuario := objs_usuario w;
         libros := libros w;
         usuarios := usuarios w;
         prestamos := prestamos w ++ [Prestamo_init u l now] |}.
Proof.
  destruct (next_or_none (es_usuario w idu) (usuarios w)) as [[iu u]|] eqn:Eu;
    [|left; by rewrite prestar_libro_sin_usuario].
  destruct (next_or_none (es_libro_disponible w idl) (libros w)) as [[il l]|] eqn:El;
    [|left; by rewrite prestar_libro_sin_libro].
  right. rewrite (prestar_libro_encontrados now _ _ _ _ _ _ _ Eu El).
  apply next_or_none_Some in Eu as (Hiu & (ou & Hou & _)%es_usuario_true & _).
  apply next_or_none_Some in El
    as (Hil & (ol & Hol & _ & Hd)%es_libro_disponible_true & _).
  exists u, l, ou, ol.
  split; [by eapply list_elem_of_lookup_2|].
  split; [by eapply list_elem_of_lookup_2|]. done.
Qed.

Lemma devolver_libro_casos now idu idl w m w' :
  devolver_libro now idu idl w = Some (m, w') →
  (m = 0 ∧ w' = w) ∨
  ∃ i p,
    prestamos w !! i = Some p ∧ devuelto p = false ∧
    m = multa_por_dias (days (now - fecha_prestamo p)) ∧
    prestamo_activo_de w idu idl p ∧
    w' = {| objs_libro := alter (con_disponible true) (libro p) (objs_libro w);
            objs_usuario := alter (sumar_multa m) (usuario p) (objs_usuario w);
            libros := libros w;
            usuarios := usuarios w;
            prestamos := alter (cerrar now) i (prestamos w) |}.
Proof.
  intros Hdev.
  destruct (next_or_none (es_prestamo_activo w idu idl) (prestamos w))
    as [[i p]|] eqn:E.
  - right. rewrite (devolver_libro_encontrado now _ _ _ _ _ E) in Hdev.
    injection Hdev as <- <-.
    apply next_or_none_Some in E as (Hi & Hact%es_prestamo_activo_true & _).
    pose proof Hact as (_ & _ & _ & _ & _ & _ & Hp).
    by exists i, p.
  - left. rewrite (devolver_libro_ninguno now _ _ _ E) in Hdev.
    by injection Hdev as <- <-.
Qed.

(** ** Loans refer to registered patrons and catalog books *)

Lemma referencias_ejecutar op w w' :
  ejecutar op w = Some w' →
  (∀ p, p ∈ prestamos w → usuario p ∈ usuarios w ∧ libro p ∈ libros w) →
  ∀ p, p ∈ prestamos w' → usuario p ∈ usuarios w' ∧ libro p ∈ libros w'.
Proof.
  intros Hej Hinv.
  destruct op as [id t a d|id n|u|l|c|now idu idl|now idu idl]; simpl in Hej.
  - by injection Hej as <-.
  - by injection Hej as <-.
  - case_decide; [|done]. injection Hej as <-. simpl.
    intros p Hp. destruct (Hinv p Hp). split; [|done].
    apply elem_of_app. by left.
  - case_decide; [|done]. injection Hej as <-. simpl.
    intros p Hp. destruct (Hinv p Hp). split; [done|].
    apply elem_of_app. by left.
  - by injection Hej as <-.
  - injection Hej as <-.
    destruct (prestar_libro_casos now idu idl w)
      as [-> | (u & l & ou & ol & Hu & Hl & _ & _ & _ & ->)]; [done|].
    simpl. intros p [Hp | ->%list_elem_of_singleton]%elem_of_app; [by apply Hinv|].
    by split.
  - destruct (devolver_libro now idu idl w) as [[m w1]|] eqn:E; [|done].
    injection Hej as <-.
    apply devolver_libro_casos in E as [[_ ->] | (j & q & Hj & Hq & _ & _ & ->)]; [done|].
    simpl. intros p [k Hk]%list_elem_of_lookup.
    rewrite list_lookup_alter in Hk. case_decide as Hjk.
    + rewrite Hj in Hk. injection Hk as <-. simpl.
      apply Hinv. by eapply list_elem_of_lookup_2.
    + apply Hinv. by eapply list_elem_of_lookup_2.
Qed.

Lemma referencias_correr ops w w' :
  correr ops w = Some w' →
  (∀ p, p ∈ prestamos w → usuario p ∈ usuarios w ∧ libro p ∈ libros w) →
  ∀ p, p ∈ prestamos w' → usuario p ∈ usuarios w' ∧ libro p ∈ libros w'.
Proof.
  revert w. induction ops as [|op ops IH]; intros w Hrun Hinv; simpl in Hrun.
  - by injection Hrun as <-.
  - destruct (ejecutar op w) as [w1|] eqn:E; [|done]. simpl in Hrun.
    apply (IH w1 Hrun). by eapply referencias_ejecutar.
Qed.

Lemma filter_a_lo_sumo_uno {A} (P : A → Prop) `{!∀ x, Decision (P x)} (xs : list A) :
  (∀ i j x y, xs !! i = Some x → xs !! j = Some y → P x → P y → i = j) →
  (length (filter P xs) ≤ 1)%nat.
Proof.
  induction xs as [|x xs IH]; intros Huno; [simpl; lia|].
  destruct (decide (P x)) as [Hx|Hx].
  - rewrite filter_cons_True by done.
    assert (filter P xs = []) as ->; [|simpl; lia].
    destruct (filter P xs) as [|y ys] eqn:E; [done|].
    assert (y ∈ filter P xs) as [Hy [k Hk]%list_elem_of_lookup]%list_elem_of_filter
      by (rewrite E; left).
    by specialize (Huno 0%nat (S k) x y eq_refl Hk Hx Hy).
  - rewrite filter_cons_False by done. apply IH.
    intros i j y z Hi Hj Hy Hz.
    specialize (Huno (S i) (S j) y z Hi Hj Hy Hz). lia.
Qed.

(** C6.  In every state a program reaches from the empty library, a book
    record has at most one active loan. *)
Theorem un_prestamo_activo_por_libro (w : Estado) :
  alcanzable w →
  ∀ l, (length (activos_de l w) ≤ 1)%nat.
Proof.
  intros Hw l. destruct (invariante_alcanzable w Hw) as (_ & Huno & _).
  apply filter_a_lo_sumo_uno.
  intros i j p q Hi Hj [Hpl Hp] [Hql Hq].
  apply (Huno i j p q); congruence.
Qed.

Lemma un_prestamo_activo_por_libro_witness :
  (length (activos_de 0 (estado_de dos_copias_prestadas)) ≤ 1)%nat.
Proof.
  apply un_prestamo_activo_por_libro.
  exists dos_copias_prestadas. reflexivity.
Defined.

(** ** Returning twice *)

Lemma ids_unicos_un_activo (idu idl : Z) (w : Estado) :
  alcanzable w → ids_unicos w →
  ∀ i j p q, prestamos w !! i = Some p → prestamos w !! j = Some q →
    prestamo_activo_de w idu idl p →
    prestamo_activo_de w idu idl q → i = j.
Proof.
  intros Hw Hids i j p q Hi Hj Hp Hq.
  destruct (invariante_alcanzable w Hw) as (_ & Huno & _).
  destruct Hw as [ops Hrun].
  assert (Href : ∀ x, x ∈ prestamos w → libro x ∈ libros w).
  { intros x Hx.
    destruct (referencias_correr ops inicial w Hrun) with (p := x) as [_ Hl];
      [intros y Hy; by apply elem_of_nil in Hy|done|done]. }
  destruct Hp as (up & bp & _ & Hbp & _ & Hidp & Hdp).
  destruct Hq as (uq & bq & _ & Hbq & _ & Hidq & Hdq).
  apply (Huno i j p q Hi Hj Hdp Hdq).
  apply (Hids (libro p) (libro q) bp bq); [| |done|done|congruence].
  - apply Href. by eapply list_elem_of_lookup_2.
  - apply Href. by eapply list_elem_of_lookup_2.
Qed.

(** C4, the counterexample.  Two book records carry id 30 and patron 2
    holds both: the second of two successive returns finds the other loan,
    returns 1500 and raises the balance from 1500 to 3000. *)
Lemma devolver_libro_dos_veces_contraejemplo :
  let w := estado_de dos_copias_prestadas in
  let t := 10 * MICROSEGUNDOS_POR_DIA in
  correr dos_copias_prestadas inicial = Some w ∧
  ∃ w1 w2,
    devolver_libro t 2 30 w = Some (1500, w1) ∧
    devolver_libro t 2 30 w1 = Some (1500, w2) ∧
    multas <$> objs_usuario w1 !! 0%nat = Some 1500 ∧
    multas <$> objs_usuario w2 !! 0%nat = Some 3000.
Proof.
  split; [reflexivity|].
  eexists _, _. split; [vm_compute; reflexivity|].
  split; [vm_compute; reflexivity|]. split; reflexivity.
Qed.

(** C4, amended.  When at most one active loan matches the pair of ids,
    and in particular in every state a program reaches in which no two
    catalog records carry the same book id, the first [devolver_libro]
    leaves no active match behind, and a second call returns 0 and leaves
    the whole state, all balances included, as the first call left it. *)
Theorem devolver_libro_dos_veces (now1 now2 : datetime) (idu idl : Z) (w : Estado) :
  (∀ i j p q, prestamos w !! i = Some p → prestamos w !! j = Some q →
     prestamo_activo_de w idu idl p →
     prestamo_activo_de w idu idl q → i = j)
  ∨ (alcanzable w ∧ ids_unicos w) →
  ∃ m1 w1,
    devolver_libro now1 idu idl w = Some (m1, w1) ∧
    (∀ q, q ∈ prestamos w1 → ¬ prestamo_activo_de w1 idu idl q) ∧
    devolver_libro now2 idu idl w1 = Some (0, w1).
Proof.
  intros [Huniq | [Hw Hids]].
  - by apply devolver_libro_un_activo.
  - apply devolver_libro_un_activo. by apply ids_unicos_un_activo.
Qed.

Lemma devolver_libro_dos_veces_witness :
  ∃ m1 w1,
    devolver_libro (9 * MICROSEGUNDOS_POR_DIA) 2 30 (estado_de escenario)
      = Some (m1, w1) ∧
    (∀ q, q ∈ prestamos w1 → ¬ prestamo_activo_de w1 2 30 q) ∧
    devolver_libro (9 * MICROSEGUNDOS_POR_DIA) 2 30 w1 = Some (0, w1).
Proof.
  apply (devolver_libro_dos_veces (9 * MICROSEGUNDOS_POR_DIA)
           (9 * MICROSEGUNDOS_POR_DIA) 2 30 (estado_de escenario)).
  right. split.
  - exists escenario. reflexivity.
  - intros r1 r2 o1 o2 H1 H2 _ _ _.
    apply list_elem_of_singleton in H1. apply list_elem_of_singleton in H2.
    congruence.
Defined.

(** ** Fine balances *)

Lemma prestar_libro_objs_usuario now idu idl w :
  objs_usuario (snd (prestar_libro now idu idl w)) = objs_usuario w.
Proof.
  unfold prestar_libro.
  destruct (next_or_none (es_usuario w idu) (usuarios w)) as [[??]|]; [|done].
  by destruct (next_or_none (es_libro_disponible w idl) (libros w)) as [[??]|].
Qed.

(** C7.  Every call of the library returns, and the balance of every patron
    after it is at least what it was before. *)
Theorem multas_no_disminuyen (op : Op) (w : Estado) :
  op_valida op w →
  ∃ w', ejecutar op w = Some w' ∧
    ∀ u o, objs_usuario w !! u = Some o →
      ∃ o', objs_usuario w' !! u = Some o' ∧ multas o ≤ multas o'.
Proof.
  assert (Hrefl : ∀ w1 : Estado, objs_usuario w1 = objs_usuario w →
            ∀ u o, objs_usuario w !! u = Some o →
              ∃ o', objs_usuario w1 !! u = Some o' ∧ multas o ≤ multas o').
  { intros w1 Heq u o Hu. exists o. rewrite Heq. split; [done|lia]. }
  destruct op as [id t a d|id n|u|l|c|now idu idl|now idu idl]; simpl; intros Hval.
  - eexists. split; [reflexivity|]. by apply Hrefl.
  - eexists. split; [reflexivity|]. simpl. intros u o Hu.
    exists o. split; [by apply lookup_app_l_Some|lia].
  - rewrite decide_True by done. eexists. split; [reflexivity|]. by apply Hrefl.
  - rewrite decide_True by done. eexists. split; [reflexivity|]. by apply Hrefl.
  - eexists. split; [reflexivity|]. by apply Hrefl.
  - eexists. split; [reflexivity|]. apply Hrefl, prestar_libro_objs_usuario.
  - destruct (devolver_libro_total now idu idl w) as (m & w' & Hdev & _).
    rewrite Hdev. exists w'. split; [reflexivity|].
    intros u o Hu.
    destruct (devolver_libro_usuarios _ _ _ _ _ _ Hdev u o Hu) as (o' & ? & _ & _ & ?).
    by exists o'.
Qed.

Lemma multas_no_disminuyen_witness :
  ∃ w', ejecutar (DevolverLibro (10 * MICROSEGUNDOS_POR_DIA) 2 30)
                 (estado_de escenario) = Some w' ∧
    ∀ u o, objs_usuario (estado_de escenario) !! u = Some o →
      ∃ o', objs_usuario w' !! u = Some o' ∧ multas o ≤ multas o'.
Proof.
  apply (multas_no_disminuyen
           (DevolverLibro (10 * MICROSEGUNDOS_POR_DIA) 2 30) (estado_de escenario)).
  simpl. exact I.
Defined.

(** ** Search *)

Lemma startswith_spec (s pre : str) :
  startswith s pre = true ↔ ∃ suf, s = pre ++ suf.
Proof.
  revert s. induction pre as [|c pre IH]; intros s; simpl.
  - split; [intros _; by exists s|done].
  - destruct s as [|d s].
    + split; [done|]. by intros (suf & ?).
    + rewrite andb_true_iff, N.eqb_eq, IH. split.
      * intros [-> (suf & ->)]. by exists suf.
      * intros (suf & [= -> ->]). split; [done|]. by exists suf.
Qed.

Lemma str_in_spec (sub s : str) :
  str_in sub s = true ↔ ∃ pre suf, s = pre ++ sub ++ suf.
Proof.
  induction s as [|d s IH]; simpl.
  - rewrite orb_false_r, startswith_spec. split.
    + intros (suf & ->). by exists [], suf.
    + intros (pre & suf & H). symmetry in H.
      apply app_eq_nil in H as [-> [-> ->]%app_eq_nil]. by exists [].
  - rewrite orb_true_iff, startswith_spec, IH. split.
    + intros [(suf & ->) | (pre & suf & ->)].
      * by exists [], suf.
      * by exists (d :: pre), suf.
    + intros ([|c pre] & suf & H); simpl in H.
      * left. by exists suf.
      * right. injection H as -> ->. by exists pre, suf.
Qed.

Lemma str_in_vacio (s : str) : str_in [] s = true.
Proof. apply str_in_spec. by exists [], s. Qed.

Lemma coincide_ref_spec lower w q l :
  coincide_ref lower w q l = true ↔ coincide_spec lower w q l.
Proof.
  unfold coincide_ref, coincide_spec, coincide, contiene_sin_distinguir.
  destruct (objs_libro w !! l) as [o|].
  - rewrite orb_true_iff, !str_in_spec. split.
    + intros H. by exists o.
    + by intros (o' & [= <-] & H).
  - split; [done|]. by intros (o & ? & _).
Qed.

Lemma List_filter_stdpp {A} (f : A → bool) (P : A → Prop)
    `{!∀ x, Decision (P x)} (xs : list A) :
  (∀ x, f x = true ↔ P x) → List.filter f xs = filter P xs.
Proof.
  intros Hf. induction xs as [|x xs IH]; [done|]. simpl.
  rewrite filter_cons, IH.
  destruct (f x) eqn:E; case_decide as HP; try done.
  - destruct HP. by apply Hf.
  - apply Hf in HP. congruence.
Qed.

Lemma List_filter_todos {A} (f : A → bool) (xs : list A) :
  (∀ x, x ∈ xs → f x = true) → List.filter f xs = xs.
Proof.
  induction xs as [|x xs IH]; intros H; [done|]. simpl.
  rewrite (H x) by left. f_equal. apply IH. intros y Hy. apply H. by right.
Qed.

Lemma List_filter_elem_of {A} (f : A → bool) (xs : list A) x :
  x ∈ List.filter f xs ↔ x ∈ xs ∧ f x = true.
Proof. by rewrite !list_elem_of_In, filter_In. Qed.

(** For the lower case of the ASCII range, which maps character by
    character, the reading above agrees with the other one: some piece of
    [s] equals [q] up to case. *)
Lemma contiene_sin_distinguir_ascii (q s : str) :
  contiene_sin_distinguir lower_ascii q s ↔
  ∃ pre mid suf, s = pre ++ mid ++ suf ∧ lower_ascii mid = lower_ascii q.
Proof.
  unfold contiene_sin_distinguir, lower_ascii. split.
  - intros (pre & suf & H).
    apply fmap_app_inv in H as (pre' & rest & -> & H & ->). symmetry in H.
    apply fmap_app_inv in H as (mid & suf' & H & -> & ->).
    by exists pre', mid, suf'.
  - intros (pre & mid & suf & -> & H).
    exists (lower_cp <$> pre), (lower_cp <$> suf).
    by rewrite !fmap_app, H.
Qed.

#[export] Instance coincide_spec_dec lower w q l :
  Decision (coincide_spec lower w q l).
Proof.
  destruct (coincide_ref lower w q l) eqn:E.
  - left. by apply coincide_ref_spec.
  - right. intros H%coincide_ref_spec. congruence.
Defined.

Lemma lower_de_ascii (lower : str → str) (s : string) :
  (∀ s, es_ascii s → lower s = lower_ascii s) →
  Forall (λ c, (c <? 128)%N = true) (cps s) →
  lower (cps s) = lower_ascii (cps s).
Proof.
  intros Hlower Hs. apply Hlower. unfold es_ascii.
  eapply Forall_impl; [exact Hs|]. intros c Hc. by apply N.ltb_lt.
Qed.

(** C8.  [buscar_libro] returns the catalog filtered, in catalog order, by
    "the title or the author contains the query as a case-insensitive
    substring".  A book titled "1984" by "George Orwell" is found by
    "orwell", "ORWELL" and "1984" (with any [str.lower] that lowers ASCII
    text the ASCII way). *)
Theorem buscar_libro_correcta (lower : str → str) (w : Estado)
    `{!∀ q l, Decision (coincide_spec lower w q l)} :
  (∀ q, buscar_libro lower q w = filter (coincide_spec lower w q) (libros w))
  ∧ ((∀ s, es_ascii s → lower s = lower_ascii s) →
     ∀ l o, l ∈ libros w → objs_libro w !! l = Some o →
       titulo o = cps "1984" → autor o = cps "George Orwell" →
       l ∈ buscar_libro lower (cps "orwell") w ∧
       l ∈ buscar_libro lower (cps "ORWELL") w ∧
       l ∈ buscar_libro lower (cps "1984") w).
Proof.
  split.
  - intros q. unfold buscar_libro. apply List_filter_stdpp.
    intros l. apply coincide_ref_spec.
  - intros Hlower l o Hin Ho Ht Ha.
    assert (Hl : ∀ s : string, Forall (λ c, (c <? 128)%N = true) (cps s) →
                   lower (cps s) = lower_ascii (cps s))
      by (intros s; by apply lower_de_ascii).
    assert (Hfind : ∀ q : string,
              Forall (λ c, (c <? 128)%N = true) (cps q) →
              str_in (lower_ascii (cps q)) (lower_ascii (cps "1984"))
              || str_in (lower_ascii (cps q)) (lower_ascii (cps "George Orwell"))
              = true →
              l ∈ buscar_libro lower (cps q) w).
    { intros q Hq Hmatch. apply List_filter_elem_of. split; [done|].
      unfold coincide_ref, coincide. rewrite Ho, Ht, Ha.
      rewrite !Hl; [done|repeat constructor..|done]. }
    split; [|split]; apply Hfind; (repeat constructor) || reflexivity.
Qed.

Lemma buscar_libro_correcta_witness :
  let w := estado_de escenario in
  (0%nat ∈ buscar_libro lower_ascii (cps "orwell") w ∧
   0%nat ∈ buscar_libro lower_ascii (cps "ORWELL") w ∧
   0%nat ∈ buscar_libro lower_ascii (cps "1984") w)
  ∧ buscar_libro lower_ascii (cps "Huxley") w = [].
Proof.
  intros w. split.
  - apply (proj2 (buscar_libro_correcta lower_ascii w)
             (λ s _, eq_refl) 0%nat
             (mkLibro 30 (cps "1984") (cps "George Orwell") false)).
    + left.
    + reflexivity.
    + reflexivity.
    + reflexivity.
  - rewrite (proj1 (buscar_libro_correcta lower_ascii w)). reflexivity.
Defined.

Lemma ejecutar_libros op w w' :
  ejecutar op w = Some w' → libros w' = libros w ++ agregados [op].
Proof.
  destruct op as [id t a d|id n|u|l|c|now idu idl|now idu idl]; simpl.
  - intros [= <-]. simpl. by rewrite app_nil_r.
  - intros [= <-]. simpl. by rewrite app_nil_r.
  - case_decide; [|done]. intros [= <-]. simpl. by rewrite app_nil_r.
  - case_decide; [|done]. by intros [= <-].
  - intros [= <-]. by rewrite app_nil_r.
  - intros [= <-]. rewrite app_nil_r. unfold prestar_libro.
    destruct (next_or_none (es_usuario w idu) (usuarios w)) as [[??]|]; [|done].
    by destruct (next_or_none (es_libro_disponible w idl) (libros w)) as [[??]|].
  - destruct (devolver_libro now idu idl w) as [[m w1]|] eqn:E; [|done].
    intros [= <-]. rewrite app_nil_r.
    destruct (next_or_none (es_prestamo_activo w idu idl) (prestamos w))
      as [[i p]|] eqn:E'.
    + rewrite (devolver_libro_encontrado now _ _ _ _ _ E') in E.
      by injection E as <- <-.
    + rewrite (devolver_libro_ninguno now _ _ _ E') in E.
      by injection E as <- <-.
Qed.

Lemma correr_libros ops w w' :
  correr ops w = Some w' → libros w' = libros w ++ agregados ops.
Proof.
  revert w. induction ops as [|op ops IH]; intros w; simpl.
  - intros [= <-]. by rewrite app_nil_r.
  - destruct (ejecutar op w) as [w1|] eqn:E; [|done]. simpl.
    intros Hrun. rewrite (IH w1 Hrun), (ejecutar_libros _ _ _ E).
    rewrite <- app_assoc. f_equal. by destruct op.
Qed.

(** C9.  In any state a program reaches, searching for the empty string
    returns the whole catalog, and the catalog is the sequence of the books
    the program has added, in the order of the calls. *)
Theorem buscar_libro_vacio (lower : str → str) (ops : list Op) (w : Estado) :
  lower [] = [] →
  correr ops inicial = Some w →
  buscar_libro lower [] w = libros w ∧ libros w = agregados ops.
Proof.
  intros Hlower Hrun. split.
  - unfold buscar_libro. apply List_filter_todos. intros l Hin.
    destruct (invariante_alcanzable w (ex_intro _ ops Hrun)) as ((Hl & _) & _).
    destruct (lookup_lt_is_Some_2 _ _ (Hl l Hin)) as [o Ho].
    unfold coincide_ref, coincide. rewrite Ho, Hlower.
    by rewrite str_in_vacio.
  - by rewrite (correr_libros _ _ _ Hrun).
Qed.

Lemma buscar_libro_vacio_witness :
  buscar_libro lower_ascii [] (estado_de dos_copias_prestadas) = [0; 1]%nat
  ∧ agregados dos_copias_prestadas = [0; 1]%nat.
Proof.
  destruct (buscar_libro_vacio lower_ascii dos_copias_prestadas
              (estado_de dos_copias_prestadas) eq_refl eq_refl) as [H1 H2].
  split.
  - rewrite H1. reflexivity.
  - rewrite <- H2. reflexivity.
Defined.

(** ** A book on loan stays unavailable *)

Lemma es_libro_disponible_alter_false w idl l r :
  (r ≠ l → es_libro_disponible w idl r = false) →
  match alter (con_disponible false) l (objs_libro w) !! r with
  | Some o => (id_libro o =? idl) && disponible o
  | None => false
  end = false.
Proof.
  unfold es_libro_disponible. rewrite list_lookup_alter.
  case_decide as Hlr; [subst r|intros H; apply H; congruence].
  destruct (objs_libro w !! l); simpl; [|done].
  intros _. apply andb_false_r.
Qed.

Lemma agotado_ejecutar idl op w w' :
  no_libera idl op w →
  ejecutar op w = Some w' → agotado idl w → agotado idl w'.
Proof.
  intros Hop Hej [Hval Hag].
  destruct op as [id t a d|id n|u|l|c|now idu idl'|now idu idl']; simpl in *.
  - injection Hej as <-. split; simpl.
    + intros r Hr. rewrite length_app. specialize (Hval r Hr). lia.
    + intros r Hr. unfold es_libro_disponible. simpl.
      rewrite lookup_app_l by auto. by apply Hag.
  - by injection Hej as <-.
  - case_decide; [|done]. by injection Hej as <-.
  - case_decide as Hl; [|done]. injection Hej as <-. split; simpl.
    + intros r [Hr | ->%list_elem_of_singleton]%elem_of_app; [by apply Hval|done].
    + intros r [Hr | ->%list_elem_of_singleton]%elem_of_app; [by apply Hag|].
      change (es_libro_disponible w idl l = false).
      destruct (es_libro_disponible w idl l) eqn:E; [|done].
      apply es_libro_disponible_true in E as (o & Ho & Hid & Hd).
      rewrite (Hop o Ho Hid) in Hd. discriminate.
  - by injection Hej as <-.
  - injection Hej as <-.
    destruct (next_or_none (es_usuario w idu) (usuarios w)) as [[iu u]|] eqn:Eu;
      [|by rewrite prestar_libro_sin_usuario].
    destruct (next_or_none (es_libro_disponible w idl') (libros w)) as [[il l]|] eqn:El;
      [|by rewrite prestar_libro_sin_libro].
    rewrite (prestar_libro_encontrados now _ _ _ _ _ _ _ Eu El).
    split; simpl.
    + intros r Hr. rewrite length_alter. by apply Hval.
    + intros r Hr. apply es_libro_disponible_alter_false. intros _. by apply Hag.
  - destruct (devolver_libro now idu idl' w) as [[m w1]|] eqn:E; [|done].
    injection Hej as <-.
    destruct (next_or_none (es_prestamo_activo w idu idl') (prestamos w))
      as [[i p]|] eqn:E'.
    2: { rewrite (devolver_libro_ninguno now _ _ _ E') in E.
         by injection E as <- <-. }
    rewrite (devolver_libro_encontrado now _ _ _ _ _ E') in E.
    injection E as <- <-.
    apply next_or_none_Some in E' as (Hi & Hp%es_prestamo_activo_true & _).
    assert (Hne : idl' ≠ idl).
    { intros ->. by apply (Hop eq_refl p (list_elem_of_lookup_2 _ _ _ Hi)). }
    destruct Hp as (ou & b & _ & Hb & _ & Hid & _).
    split; simpl.
    + intros r Hr. rewrite length_alter. by apply Hval.
    + intros r Hr. specialize (Hag r Hr). revert Hag.
      unfold es_libro_disponible. simpl. rewrite list_lookup_alter.
      case_decide as Hlr; [subst r|done].
      rewrite Hb. simpl. intros _.
      destruct (Z.eqb_spec (id_libro b) idl); [congruence|done].
Qed.

Lemma agotado_correr idl ops w w' :
  sin_liberar idl ops w →
  correr ops w = Some w' → agotado idl w → agotado idl w'.
Proof.
  revert w. induction ops as [|op ops IH]; intros w Hops; simpl.
  - by intros [= <-].
  - destruct Hops as [Hop Hresto].
    destruct (ejecutar op w) as [w1|] eqn:E; [|done]. simpl.
    intros Hrun Hag. apply (IH w1 (Hresto w1 eq_refl) Hrun).
    by eapply agotado_ejecutar.
Qed.

Lemma agotado_prestar_libro now idu idl w :
  agotado idl w → prestar_libro now idu idl w = (None, w).
Proof.
  intros [_ Hag]. apply prestar_libro_sin_libro, next_or_none_None. exact Hag.
Qed.

(** C1, the counterexample.  Two available catalog records carry id 30:
    the first loan takes one of them, and a second call for the same id,
    with no return in between, lends the other instead of returning
    nothing. *)
Lemma prestar_libro_dos_veces_contraejemplo :
  let w := estado_de dos_copias in
  correr dos_copias inicial = Some w ∧
  ∃ w1 w2,
    prestar_libro 0 2 30 w = (Some 0%nat, w1) ∧
    prestar_libro 0 2 30 w1 = (Some 1%nat, w2).
Proof.
  split; [reflexivity|].
  eexists _, _. split; vm_compute; reflexivity.
Qed.

(** C1, amended.  For a registered patron id and a book id that some
    available catalog record carries, [prestar_libro] returns a new loan,
    appended to the loan list, for the first registered patron with the id
    and the first available catalog record with the id, and that record is
    unavailable afterwards.  When no other available catalog record carries
    the id, every later call for the id, with any patron, returns nothing
    and changes nothing, until a book with that id is returned or an
    available record with that id is added to the catalog. *)
Theorem prestar_libro_exito (now : datetime) (idu idl : Z) (w : Estado)
    (u0 l0 : ref) (ou : Usuario) (ol : Libro) :
  u0 ∈ usuarios w → objs_usuario w !! u0 = Some ou → id_usuario ou = idu →
  l0 ∈ libros w → objs_libro w !! l0 = Some ol → id_libro ol = idl →
  disponible ol = true →
  ∃ iu il u l b w',
    prestar_libro now idu idl w = (Some (length (prestamos w)), w') ∧
    (* the patron: the first one registered with the id *)
    usuarios w !! iu = Some u ∧
    (∃ o, objs_usuario w !! u = Some o ∧ id_usuario o = idu) ∧
    (∀ j r o, (j < iu)%nat → usuarios w !! j = Some r →
              objs_usuario w !! r = Some o → id_usuario o ≠ idu) ∧
    (* the book: the first available catalog record with the id *)
    libros w !! il = Some l ∧
    (∃ o, objs_libro w !! l = Some o ∧ id_libro o = idl ∧ disponible o = true) ∧
    (∀ j r o, (j < il)%nat → libros w !! j = Some r →
              objs_libro w !! r = Some o → id_libro o = idl →
              disponible o = false) ∧
    (* the new loan *)
    prestamos w' = prestamos w ++
      [{| usuario := u; libro := l; fecha_prestamo := now;
          devuelto := false; fecha_devolucion := None |}] ∧
    (* its book afterwards *)
    objs_libro w' !! l = Some b ∧ id_libro b = idl ∧ disponible b = false ∧
    (∀ r, r ≠ l → objs_libro w' !! r = objs_libro w !! r) ∧
    objs_usuario w' = objs_usuario w ∧
    libros w' = libros w ∧ usuarios w' = usuarios w ∧
    (* later calls for the same id *)
    ((∀ r o, r ∈ libros w → objs_libro w !! r = Some o →
             id_libro o = idl → disponible o = true → r = l) →
     (∀ r, r ∈ libros w → (r < length (objs_libro w))%nat) →
     ∀ ops w'', sin_liberar idl ops w' →
       correr ops w' = Some w'' →
       ∀ now' idu', prestar_libro now' idu' idl w'' = (None, w'')).
Proof.
  intros Hu0 Hou Hidu Hl0 Hol Hidl Hdisp.
  destruct (next_or_none_is_Some (es_usuario w idu) (usuarios w) u0 Hu0)
    as [[iu u] Eu]; [apply es_usuario_true; by exists ou|].
  destruct (next_or_none_is_Some (es_libro_disponible w idl) (libros w) l0 Hl0)
    as [[il l] El]; [apply es_libro_disponible_true; by exists ol|].
  pose proof (prestar_libro_encontrados now _ _ _ _ _ _ _ Eu El) as Hpr.
  apply next_or_none_Some in Eu as (Hiu & Hu & Hu1).
  apply next_or_none_Some in El as (Hil & Hl & Hl1).
  destruct (proj1 (es_libro_disponible_true _ _ _) Hl) as (b & Hb & Hbid & Hbd).
  exists iu, il, u, l, (con_disponible false b). eexists.
  split; [exact Hpr|].
  split; [exact Hiu|]. split; [by apply es_usuario_true|].
  split.
  { intros j r o Hj Hr Ho Hid. specialize (Hu1 j r Hr Hj).
    assert (es_usuario w idu r = true) by (apply es_usuario_true; by exists o).
    congruence. }
  split; [exact Hil|]. split; [by apply es_libro_disponible_true|].
  split.
  { intros j r o Hj Hr Ho Hid. specialize (Hl1 j r Hr Hj).
    destruct (disponible o) eqn:Hd; [|done].
    assert (es_libro_disponible w idl r = true)
      by (apply es_libro_disponible_true; by exists o).
    congruence. }
  split; [reflexivity|].
  split; [simpl; by rewrite list_lookup_alter_eq, Hb|].
  split; [exact Hbid|]. split; [reflexivity|].
  split; [intros r Hr; simpl; by rewrite list_lookup_alter_ne|].
  split; [reflexivity|]. split; [reflexivity|]. split; [reflexivity|].
  intros Hunico Hval ops w'' Hops Hrun now' idu'.
  apply agotado_prestar_libro.
  apply (agotado_correr idl ops _ w'' Hops Hrun).
  split; simpl.
  - intros r Hr. rewrite length_alter. by apply Hval.
  - intros r Hr. apply es_libro_disponible_alter_false. intros Hne.
    destruct (es_libro_disponible w idl r) eqn:E; [|done].
    apply es_libro_disponible_true in E as (o & Ho & Hoid & Hod).
    destruct Hne. by apply (Hunico r o).
Qed.

Lemma prestar_libro_exito_witness :
  ∃ w',
    prestar_libro 0 2 30 (estado_de dos_usuarios) = (Some 0%nat, w') ∧
    (* of the two patrons with id 2, the first registered gets the loan *)
    prestamos w' = [mkPrestamo 0%nat 0%nat 0 false None] ∧
    (* another book is added and a patron without loans returns id 30:
       the book stays on loan *)
    ∀ w'', correr [BuscarLibro []; NuevoLibro 31 [] [] true; AgregarLibro 1%nat;
                   DevolverLibro 3 99 30] w' = Some w'' →
           prestar_libro 8 2 30 w'' = (None, w'').
Proof.
  destruct (prestar_libro_exito 0 2 30 (estado_de dos_usuarios) 1%nat 0%nat
              (mkUsuario 2 (cps "Gerardo") 0)
              (mkLibro 30 (cps "1984") (cps "George Orwell") true))
    as (iu & il & u & l & b & w' & Hpr & Hiu & _ & Hu1 & Hil & _ & _ & Hps
        & _ & _ & _ & _ & _ & _ & _ & Hluego);
    [by right; left|reflexivity|reflexivity|by left|reflexivity|reflexivity
    |reflexivity|].
  assert (iu = 0%nat) as ->.
  { destruct iu as [|iu]; [done|]. exfalso.
    apply (Hu1 0%nat 0%nat (mkUsuario 2 (cps "Sebastian") 0));
      [lia|reflexivity|reflexivity|reflexivity]. }
  assert (il = 0%nat) as ->.
  { destruct il as [|il]; [done|]. simpl in Hil. by rewrite lookup_nil in Hil. }
  simpl in Hiu, Hil. injection Hiu as <-. injection Hil as <-.
  assert (Hw' : w' = snd (prestar_libro 0 2 30 (estado_de dos_usuarios)))
    by (by rewrite Hpr).
  exists w'. split; [exact Hpr|]. split; [exact Hps|].
  intros w'' Hrun.
  apply Hluego with (ops := [BuscarLibro []; NuevoLibro 31 [] [] true;
                             AgregarLibro 1%nat; DevolverLibro 3 99 30]);
    [| |subst w'|exact Hrun].
  - intros r o Hr _ _ _. by apply list_elem_of_singleton in Hr.
  - intros r Hr. apply list_elem_of_singleton in Hr. subst r. simpl. lia.
  - split; [exact I|]. intros w1 [= <-].
    split; [exact I|]. intros w2 [= <-].
    split; [intros o [= <-]; simpl; lia|]. intros w3 [= <-].
    split; [|done].
    intros _ p Hp (uo & bo & Huo & _ & Hid & _).
    apply list_elem_of_singleton in Hp. subst p.
    simpl in Huo. injection Huo as <-. simpl in Hid. lia.
Defined.

(** * Further properties of the code *)

(** ** When lending succeeds, when returning does nothing *)

(** X1.  [prestar_libro] returns a loan exactly when some registered patron
    has the patron id and some available catalog book has the book id. *)
Theorem prestar_libro_exito_sii (now : datetime) (idu idl : Z) (w : Estado) :
  is_Some (fst (prestar_libro now idu idl w)) ↔
  (∃ u o, u ∈ usuarios w ∧ objs_usuario w !! u = Some o ∧ id_usuario o = idu) ∧
  (∃ l o, l ∈ libros w ∧ objs_libro w !! l = Some o ∧ id_libro o = idl ∧
          disponible o = true).
Proof.
  split.
  - intros Hsome.
    destruct (next_or_none (es_usuario w idu) (usuarios w)) as [[iu u]|] eqn:Eu.
    2: { rewrite prestar_libro_sin_usuario in Hsome by done. by destruct Hsome. }
    destruct (next_or_none (es_libro_disponible w idl) (libros w)) as [[il l]|] eqn:El.
    2: { rewrite prestar_libro_sin_libro in Hsome by done. by destruct Hsome. }
    apply next_or_none_Some in Eu as (Hiu & (ou & Hou & Hid)%es_usuario_true & _).
    apply next_or_none_Some in El
      as (Hil & (ol & Hol & Hidl & Hd)%es_libro_disponible_true & _).
    split.
    + exists u, ou. split; [by eapply list_elem_of_lookup_2|done].
    + exists l, ol. split; [by eapply list_elem_of_lookup_2|done].
  - intros [(u & ou & Hu & Hou & Hid) (l & ol & Hl & Hol & Hidl & Hd)].
    destruct (next_or_none_is_Some (es_usuario w idu) (usuarios w) u Hu)
      as [[iu u'] Eu]; [apply es_usuario_true; by exists ou|].
    destruct (next_or_none_is_Some (es_libro_disponible w idl) (libros w) l Hl)
      as [[il l'] El]; [apply es_libro_disponible_true; by exists ol|].
    rewrite (prestar_libro_encontrados now _ _ _ _ _ _ _ Eu El). by eexists.
Qed.

(** X2.  [devolver_libro] returns 0 and leaves the state as it was exactly
    when no active loan matches the two ids: a return that closes a loan
    with fine 0 still changes the state. *)
Theorem devolver_libro_sin_cambio (now : datetime) (idu idl : Z) (w : Estado) :
  devolver_libro now idu idl w = Some (0, w) ↔
  ∀ p, p ∈ prestamos w → ¬ prestamo_activo_de w idu idl p.
Proof.
  split.
  - intros Hdev p Hp.
    destruct (next_or_none (es_prestamo_activo w idu idl) (prestamos w))
      as [[i q]|] eqn:E.
    + exfalso. rewrite (devolver_libro_encontrado now _ _ _ _ _ E) in Hdev.
      apply next_or_none_Some in E
        as (Hi & (_ & _ & _ & _ & _ & _ & Hq)%es_prestamo_activo_true & _).
      apply (f_equal (fmap (prestamos ∘ snd))) in Hdev. simpl in Hdev.
      injection Hdev as Hps.
      assert (Hcl : alter (cerrar now) i (prestamos w) !! i = Some (cerrar now q))
        by (by rewrite list_lookup_alter_eq, Hi).
      rewrite Hps, Hi in Hcl. injection Hcl as Hcl.
      rewrite Hcl in Hq. discriminate.
    + apply es_prestamo_activo_false.
      by apply (proj1 (next_or_none_None _ _) E).
  - intros Hno. apply devolver_libro_ninguno, next_or_none_None.
    intros p Hp. by apply es_prestamo_activo_false, Hno.
Qed.

(** ** Fines over time *)

Lemma multa_por_dias_mono (d d' : Z) :
  d ≤ d' → multa_por_dias d ≤ multa_por_dias d'.
Proof.
  unfold multa_por_dias, DIAS_MAXIMO, MULTA_POR_DIA. intros H.
  destruct (Z.gtb_spec d 7), (Z.gtb_spec d' 7); lia.
Qed.

Lemma multa_por_dias_multiplo (d : Z) :
  ∃ k, 0 ≤ k ∧ multa_por_dias d = 500 * k.
Proof.
  unfold multa_por_dias, DIAS_MAXIMO, MULTA_POR_DIA.
  destruct (Z.gtb_spec d 7).
  - exists (d - 7). lia.
  - exists 0. lia.
Qed.

(** X3.  The fine of an active loan never goes down as the clock advances
    and is always a whole number of daily rates; the fine of a closed loan
    with a return date does not depend on the clock. *)
Theorem calcular_multa_en_el_tiempo (p : Prestamo) (now now' : datetime) :
  (devuelto p = false → now ≤ now' →
     ∃ m m' k, calcular_multa now p = Some m ∧ calcular_multa now' p = Some m' ∧
               m ≤ m' ∧ 0 ≤ k ∧ m = 500 * k)
  ∧ (devuelto p = true → calcular_multa now p = calcular_multa now' p).
Proof.
  split.
  - intros Hact Hle. unfold calcular_multa. rewrite Hact. simpl.
    destruct (multa_por_dias_multiplo (days (now - fecha_prestamo p)))
      as (k & Hk & Hmk).
    eexists _, _, k. split; [reflexivity|]. split; [reflexivity|].
    split; [|done]. apply multa_por_dias_mono. unfold days.
    apply Z.div_le_mono; unfold MICROSEGUNDOS_POR_DIA; lia.
  - intros Hcl. unfold calcular_multa. by rewrite Hcl.
Qed.

Lemma calcular_multa_en_el_tiempo_witness :
  ∃ m m' k,
    calcular_multa (8 * MICROSEGUNDOS_POR_DIA) (Prestamo_init 0%nat 0%nat 0) = Some m ∧
    calcular_multa (12 * MICROSEGUNDOS_POR_DIA) (Prestamo_init 0%nat 0%nat 0) = Some m' ∧
    m ≤ m' ∧ 0 ≤ k ∧ m = 500 * k.
Proof.
  apply (proj1 (calcular_multa_en_el_tiempo (Prestamo_init 0%nat 0%nat 0)
                  (8 * MICROSEGUNDOS_POR_DIA) (12 * MICROSEGUNDOS_POR_DIA))).
  - reflexivity.
  - unfold MICROSEGUNDOS_POR_DIA. lia.
Defined.

(** ** Lending and returning compose *)

Lemma alter_restaura_disponible (l : ref) (m : list Libro) (o : Libro) :
  m !! l = Some o → disponible o = true →
  alter (con_disponible true) l (alter (con_disponible false) l m) = m.
Proof.
  intros Ho Hd. apply list_eq. intros j.
  destruct (decide (l = j)) as [<-|Hj].
  - rewrite !list_lookup_alter_eq, Ho. simpl. f_equal.
    destruct o as [id t a d]. simpl in Hd. by subst d.
  - by rewrite !list_lookup_alter_ne.
Qed.

Lemma alter_sumar_cero (u : ref) (m : list Usuario) :
  alter (sumar_multa 0) u m = m.
Proof.
  apply list_alter_id. intros [id n mu]. unfold sumar_multa. simpl.
  f_equal. lia.
Qed.

(** X4.  Lending and then returning with the same two ids, in a state where
    no active loan matched them before, closes the loan just made: the fine
    is the one for the whole days between the two calls and goes to the
    patron of the loan, every book is as available as before the loan, and
    the loan list has grown by that one closed loan.  A return within seven
    whole days leaves every balance as it was. *)
Theorem prestar_devolver (now1 now2 : datetime) (idu idl : Z) (w w1 : Estado) (n : ref) :
  prestar_libro now1 idu idl w = (Some n, w1) →
  (∀ p, p ∈ prestamos w → ¬ prestamo_activo_de w idu idl p) →
  ∃ u l o,
    let m := multa_por_dias (days (now2 - now1)) in
    let cerrado := {| usuario := u; libro := l; fecha_prestamo := now1;
                      devuelto := true; fecha_devolucion := Some now2 |} in
    objs_usuario w !! u = Some o ∧ id_usuario o = idu ∧
    devolver_libro now2 idu idl w1
    = Some (m, {| objs_libro := objs_libro w;
                  objs_usuario := alter (sumar_multa m) u (objs_usuario w);
                  libros := libros w;
                  usuarios := usuarios w;
                  prestamos := prestamos w ++ [cerrado] |}) ∧
    (now2 - now1 < 8 * MICROSEGUNDOS_POR_DIA →
     devolver_libro now2 idu idl w1
     = Some (0, {| objs_libro := objs_libro w;
                   objs_usuario := objs_usuario w;
                   libros := libros w;
                   usuarios := usuarios w;
                   prestamos := prestamos w ++ [cerrado] |})).
Proof.
  intros Hpr Hno.
  destruct (next_or_none (es_usuario w idu) (usuarios w)) as [[iu u]|] eqn:Eu;
    [|by rewrite prestar_libro_sin_usuario in Hpr].
  destruct (next_or_none (es_libro_disponible w idl) (libros w)) as [[il l]|] eqn:El;
    [|by rewrite prestar_libro_sin_libro in Hpr].
  rewrite (prestar_libro_encontrados now1 _ _ _ _ _ _ _ Eu El) in Hpr.
  injection Hpr as <- <-.
  apply next_or_none_Some in Eu as (_ & (ou & Hou & Hidu)%es_usuario_true & _).
  apply next_or_none_Some in El
    as (_ & (ol & Hol & Hidl & Hd)%es_libro_disponible_true & _).
  set (w1 := {| objs_libro := alter (con_disponible false) l (objs_libro w);
                objs_usuario := objs_usuario w;
                libros := libros w; usuarios := usuarios w;
                prestamos := prestamos w ++ [Prestamo_init u l now1] |}).
  assert (Hfind : next_or_none (es_prestamo_activo w1 idu idl) (prestamos w1)
                  = Some (length (prestamos w), Prestamo_init u l now1)).
  { apply next_or_none_Some. split; [by apply list_lookup_middle|]. split.
    - apply es_prestamo_activo_true.
      exists ou, (con_disponible false ol). simpl.
      split; [done|]. split; [by rewrite list_lookup_alter_eq, Hol|done].
    - intros j q Hj Hlt. simpl in Hj. rewrite lookup_app_l in Hj by done.
      rewrite (es_prestamo_activo_ext w w1 idu idl q).
      + apply es_prestamo_activo_false, Hno. by eapply list_elem_of_lookup_2.
      + done.
      + intros r. simpl. by apply lookup_alter_campo. }
  pose proof (devolver_libro_encontrado now2 _ _ _ _ _ Hfind) as Hdev.
  simpl in Hdev.
  rewrite (alter_restaura_disponible l _ ol Hol Hd) in Hdev.
  replace (alter (cerrar now2) (length (prestamos w))
             (prestamos w ++ [Prestamo_init u l now1]))
    with (prestamos w ++ [cerrar now2 (Prestamo_init u l now1)]) in Hdev.
  2: { rewrite <- (Nat.add_0_r (length (prestamos w))).
       by rewrite alter_app_r. }
  exists u, l, ou. simpl.
  split; [done|]. split; [done|]. split; [exact Hdev|].
  intros Hpronto. rewrite Hdev.
  assert (multa_por_dias (days (now2 - now1)) = 0) as ->.
  { unfold multa_por_dias, DIAS_MAXIMO.
    destruct (Z.gtb_spec (days (now2 - now1)) 7) as [Hgt|]; [|done].
    exfalso. unfold days in Hgt.
    assert ((now2 - now1) `div` MICROSEGUNDOS_POR_DIA < 8); [|lia].
    apply Z.div_lt_upper_bound; unfold MICROSEGUNDOS_POR_DIA in *; lia. }
  by rewrite alter_sumar_cero.
Qed.

Lemma prestar_devolver_witness :
  ∃ u l o,
    objs_usuario (estado_de alta) !! u = Some o ∧ id_usuario o = 2 ∧
    devolver_libro 5 2 30 (estado_de escenario)
    = Some (0, {| objs_libro := objs_libro (estado_de alta);
                  objs_usuario := objs_usuario (estado_de alta);
                  libros := libros (estado_de alta);
                  usuarios := usuarios (estado_de alta);
                  prestamos := [mkPrestamo u l 0 true (Some 5)] |}).
Proof.
  destruct (prestar_devolver 0 5 2 30 (estado_de alta) (estado_de escenario) 0%nat)
    as (u & l & o & Ho & Hid & _ & Hdev).
  - reflexivity.
  - intros p Hp. by apply elem_of_nil in Hp.
  - exists u, l, o. split; [exact Ho|]. split; [exact Hid|].
    apply Hdev. unfold MICROSEGUNDOS_POR_DIA. lia.
Defined.

(** ** The history of loans *)

Lemma continua_refl p : continua p p.
Proof. by repeat split. Qed.

Lemma continua_trans p q r : continua p q → continua q r → continua p r.
Proof.
  intros (Hu & Hl & Hf & Hc) (Hu' & Hl' & Hf' & Hc').
  repeat split; [congruence..|].
  intros Hd. specialize (Hc Hd). subst q. by apply Hc'.
Qed.

Lemma ejecutar_historial op w w' :
  ejecutar op w = Some w' →
  ∀ i p, prestamos w !! i = Some p →
    ∃ p', prestamos w' !! i = Some p' ∧ continua p p'.
Proof.
  intros Hej i p Hi.
  destruct op as [id t a d|id n|u|l|c|now idu idl|now idu idl]; simpl in Hej.
  - injection Hej as <-. exists p. split; [done|apply continua_refl].
  - injection Hej as <-. exists p. split; [done|apply continua_refl].
  - case_decide; [|done]. injection Hej as <-.
    exists p. split; [done|apply continua_refl].
  - case_decide; [|done]. injection Hej as <-.
    exists p. split; [done|apply continua_refl].
  - injection Hej as <-. exists p. split; [done|apply continua_refl].
  - injection Hej as <-.
    destruct (prestar_libro_casos now idu idl w)
      as [-> | (u & l & ou & ol & _ & _ & _ & _ & _ & ->)].
    + exists p. split; [done|apply continua_refl].
    + exists p. split; [by apply lookup_app_l_Some|apply continua_refl].
  - destruct (devolver_libro now idu idl w) as [[m w1]|] eqn:E; [|done].
    injection Hej as <-.
    apply devolver_libro_casos in E as [[_ ->] | (j & q & Hj & Hq & _ & _ & ->)].
    + exists p. split; [done|apply continua_refl].
    + simpl. rewrite list_lookup_alter. case_decide as Hji.
      * subst j. rewrite Hi. simpl. eexists. split; [reflexivity|].
        rewrite Hi in Hj. injection Hj as ->.
        repeat split. intros Hd. congruence.
      * exists p. split; [done|apply continua_refl].
Qed.

(** X5.  The loan list is a history: whatever a program does, every loan
    stays at its place with the same patron, book and loan date, and a
    closed loan never changes again (no loan is removed or reopened). *)
Theorem correr_historial (ops : list Op) (w w' : Estado) :
  correr ops w = Some w' →
  ∀ i p, prestamos w !! i = Some p →
    ∃ p', prestamos w' !! i = Some p' ∧
          usuario p' = usuario p ∧ libro p' = libro p ∧
          fecha_prestamo p' = fecha_prestamo p ∧
          (devuelto p = true → p' = p).
Proof.
  revert w. induction ops as [|op ops IH]; intros w Hrun i p Hi; simpl in Hrun.
  - injection Hrun as <-. exists p. split; [done|]. by repeat split.
  - destruct (ejecutar op w) as [w1|] eqn:E; [|done]. simpl in Hrun.
    destruct (ejecutar_historial _ _ _ E i p Hi) as (p1 & Hp1 & Hc1).
    destruct (IH w1 Hrun i p1 Hp1) as (p' & Hp' & Hc').
    exists p'. split; [done|]. by apply (continua_trans p p1 p').
Qed.

Lemma correr_historial_witness :
  let cerrado := mkPrestamo 0%nat 0%nat 0 true (Some 9) in
  let despues := [PrestarLibro 12 2 30; DevolverLibro (12 + 9 * MICROSEGUNDOS_POR_DIA) 2 30] in
  ∃ p', prestamos (estado_de (escenario ++ DevolverLibro 9 2 30 :: despues))
          !! 0%nat = Some p' ∧
        usuario p' = 0%nat ∧ libro p' = 0%nat ∧ fecha_prestamo p' = 0 ∧
        (true = true → p' = cerrado).
Proof.
  intros cerrado despues.
  apply (correr_historial despues
           (estado_de (escenario ++ [DevolverLibro 9 2 30]))
           (estado_de (escenario ++ DevolverLibro 9 2 30 :: despues))
           eq_refl 0%nat cerrado eq_refl).
Defined.

(** ** Loans of a reachable state *)

Lemma fechas_coherentes_ejecutar op w w' :
  ejecutar op w = Some w' →
  (∀ p, p ∈ prestamos w → fechas_coherentes p) →
  ∀ p, p ∈ prestamos w' → fechas_coherentes p.
Proof.
  intros Hej Hinv.
  destruct op as [id t a d|id n|u|l|c|now idu idl|now idu idl]; simpl in Hej.
  - by injection Hej as <-.
  - by injection Hej as <-.
  - case_decide; [|done]. by injection Hej as <-.
  - case_decide; [|done]. by injection Hej as <-.
  - by injection Hej as <-.
  - injection Hej as <-.
    destruct (prestar_libro_casos now idu idl w)
      as [-> | (u & l & ou & ol & _ & _ & _ & _ & _ & ->)]; [done|].
    simpl. intros p [Hp | ->%list_elem_of_singleton]%elem_of_app; [by apply Hinv|].
    by left.
  - destruct (devolver_libro now idu idl w) as [[m w1]|] eqn:E; [|done].
    injection Hej as <-.
    apply devolver_libro_casos in E as [[_ ->] | (j & q & Hj & Hq & _ & _ & ->)]; [done|].
    simpl. intros p [k Hk]%list_elem_of_lookup.
    rewrite list_lookup_alter in Hk. case_decide as Hjk.
    + rewrite Hj in Hk. injection Hk as <-. right. split; [done|]. by eexists.
    + apply Hinv. by eapply list_elem_of_lookup_2.
Qed.

Lemma fechas_coherentes_correr ops w w' :
  correr ops w = Some w' →
  (∀ p, p ∈ prestamos w → fechas_coherentes p) →
  ∀ p, p ∈ prestamos w' → fechas_coherentes p.
Proof.
  revert w. induction ops as [|op ops IH]; intros w Hrun Hinv; simpl in Hrun.
  - by injection Hrun as <-.
  - destruct (ejecutar op w) as [w1|] eqn:E; [|done]. simpl in Hrun.
    apply (IH w1 Hrun). by eapply fechas_coherentes_ejecutar.
Qed.

(** X6.  In every state a program reaches, a loan is active without a
    return date or closed with one, so [calcular_multa] never raises on a
    loan of the library, at any time. *)
Theorem calcular_multa_no_falla (w : Estado) (p : Prestamo) (now : datetime) :
  alcanzable w → p ∈ prestamos w →
  ((devuelto p = false ∧ fecha_devolucion p = None) ∨
   (devuelto p = true ∧ ∃ fd, fecha_devolucion p = Some fd)) ∧
  ∃ m, calcular_multa now p = Some m ∧ 0 ≤ m.
Proof.
  intros [ops Hrun] Hp.
  assert (Hco : fechas_coherentes p).
  { apply (fechas_coherentes_correr ops inicial w Hrun); [|done].
    intros q Hq. by apply elem_of_nil in Hq. }
  split; [exact Hco|].
  destruct Hco as [[Hd _] | [Hd [fd Hfd]]].
  - exists (multa_por_dias (days (now - fecha_prestamo p))).
    split; [|apply multa_por_dias_nonneg].
    apply calcular_multa_referencia. by left.
  - exists (multa_por_dias (days (fd - fecha_prestamo p))).
    split; [|apply multa_por_dias_nonneg].
    apply calcular_multa_referencia. by right.
Qed.

Lemma calcular_multa_no_falla_witness :
  ((devuelto (Prestamo_init 0%nat 0%nat 0) = false ∧
    fecha_devolucion (Prestamo_init 0%nat 0%nat 0) = None) ∨
   (devuelto (Prestamo_init 0%nat 0%nat 0) = true ∧
    ∃ fd, fecha_devolucion (Prestamo_init 0%nat 0%nat 0) = Some fd)) ∧
  ∃ m, calcular_multa 77 (Prestamo_init 0%nat 0%nat 0) = Some m ∧ 0 ≤ m.
Proof.
  apply (calcular_multa_no_falla (estado_de escenario)).
  - exists escenario. reflexivity.
  - left.
Defined.

(** X7.  In every state a program reaches, the patron of every loan is a
    registered patron and its book a catalog book, and the book of an
    active loan is not available. *)
Theorem prestamos_bien_referidos (w : Estado) (p : Prestamo) :
  alcanzable w → p ∈ prestamos w →
  usuario p ∈ usuarios w ∧ libro p ∈ libros w ∧
  (devuelto p = false →
   ∃ b, objs_libro w !! libro p = Some b ∧ disponible b = false).
Proof.
  intros Hw Hp.
  destruct (invariante_alcanzable w Hw) as (_ & _ & Hact).
  destruct Hw as [ops Hrun].
  destruct (referencias_correr ops inicial w Hrun) with (p := p) as [Hu Hl];
    [intros q Hq; by apply elem_of_nil in Hq|done|].
  split; [done|]. split; [done|]. by apply Hact.
Qed.

Lemma prestamos_bien_referidos_witness :
  usuario (Prestamo_init 0%nat 1%nat 0) ∈ usuarios (estado_de dos_copias_prestadas) ∧
  libro (Prestamo_init 0%nat 1%nat 0) ∈ libros (estado_de dos_copias_prestadas) ∧
  (devuelto (Prestamo_init 0%nat 1%nat 0) = false →
   ∃ b, objs_libro (estado_de dos_copias_prestadas)
          !! libro (Prestamo_init 0%nat 1%nat 0) = Some b ∧ disponible b = false).
Proof.
  apply prestamos_bien_referidos.
  - exists dos_copias_prestadas. reflexivity.
  - right. left.
Defined.

(** ** Balances are sums of fines *)

Lemma multas_cobradas_cons u p ps :
  multas_cobradas u (p :: ps)
  = (if decide (usuario p = u) then multa_cobrada p else 0)
    + multas_cobradas u ps.
Proof. reflexivity. Qed.

Lemma multas_cobradas_app u ps qs :
  multas_cobradas u (ps ++ qs) = multas_cobradas u ps + multas_cobradas u qs.
Proof.
  induction ps as [|p ps IH]; simpl; [done|]. rewrite IH. lia.
Qed.

Lemma multas_cobradas_ajeno u ps :
  (∀ p, p ∈ ps → usuario p ≠ u) → multas_cobradas u ps = 0.
Proof.
  induction ps as [|p ps IH]; intros H; simpl; [done|].
  rewrite decide_False by (apply H; left).
  rewrite IH; [done|]. intros q Hq. apply H. by right.
Qed.

Lemma multas_cobradas_cerrar u now ps i p :
  ps !! i = Some p → devuelto p = false →
  multas_cobradas u (alter (cerrar now) i ps)
  = multas_cobradas u ps +
    (if decide (usuario p = u)
     then multa_por_dias (days (now - fecha_prestamo p)) else 0).
Proof.
  revert i. induction ps as [|q ps IH]; intros [|i] Hi Hd; try done.
  - injection Hi as ->.
    change (alter (cerrar now) 0%nat (p :: ps)) with (cerrar now p :: ps).
    rewrite !multas_cobradas_cons. unfold multa_cobrada. rewrite Hd. simpl.
    case_decide; lia.
  - change (alter (cerrar now) (S i) (q :: ps))
      with (q :: alter (cerrar now) i ps).
    rewrite !multas_cobradas_cons, (IH i Hi Hd). lia.
Qed.

Lemma saldo_ejecutar op w w' :
  ejecutar op w = Some w' → bien_formado w →
  (∀ u o, objs_usuario w !! u = Some o →
          multas o = multas_cobradas u (prestamos w)) →
  ∀ u o, objs_usuario w' !! u = Some o →
         multas o = multas_cobradas u (prestamos w').
Proof.
  intros Hej (_ & _ & Hwp) Hinv.
  destruct op as [id t a d|id n|r|l|c|now idu idl|now idu idl]; simpl in Hej.
  - by injection Hej as <-.
  - injection Hej as <-. simpl.
    intros u o [Hu | [Hlen Hu]]%lookup_app_Some; [by apply Hinv|].
    apply list_lookup_singleton_Some in Hu as [Hu <-]. simpl.
    rewrite multas_cobradas_ajeno; [done|].
    intros p Hp. destruct (Hwp p Hp) as [Hlt _]. lia.
  - case_decide; [|done]. by injection Hej as <-.
  - case_decide; [|done]. by injection Hej as <-.
  - by injection Hej as <-.
  - injection Hej as <-.
    destruct (prestar_libro_casos now idu idl w)
      as [-> | (u' & l & ou & ol & _ & _ & _ & _ & _ & ->)]; [done|].
    simpl. intros u o Hu. rewrite multas_cobradas_app. simpl.
    rewrite (Hinv u o Hu). unfold multa_cobrada. simpl. case_decide; lia.
  - destruct (devolver_libro now idu idl w) as [[m w1]|] eqn:E; [|done].
    injection Hej as <-.
    apply devolver_libro_casos in E as [[_ ->] | (j & q & Hj & Hq & -> & _ & ->)]; [done|].
    simpl. intros u o Hu.
    rewrite (multas_cobradas_cerrar u now _ j q Hj Hq).
    rewrite list_lookup_alter in Hu. case_decide as Huq.
    + subst u. destruct (objs_usuario w !! usuario q) as [oq|] eqn:Eq; [|done].
      injection Hu as <-. simpl. rewrite (Hinv _ _ Eq). lia.
    + rewrite (Hinv u o Hu). lia.
Qed.

Lemma saldo_correr ops w w' :
  correr ops w = Some w' → invariante w →
  (∀ u o, objs_usuario w !! u = Some o →
          multas o = multas_cobradas u (prestamos w)) →
  ∀ u o, objs_usuario w' !! u = Some o →
         multas o = multas_cobradas u (prestamos w').
Proof.
  revert w. induction ops as [|op ops IH]; intros w Hrun Hw Hinv; simpl in Hrun.
  - by injection Hrun as <-.
  - destruct (ejecutar op w) as [w1|] eqn:E; [|done]. simpl in Hrun.
    apply (IH w1 Hrun).
    + by eapply invariante_ejecutar.
    + eapply saldo_ejecutar; [exact E|apply Hw|exact Hinv].
Qed.

(** X8.  In every state a program reaches, the balance of a patron object
    is the sum of the fines of its closed loans: a balance starts at 0 and
    changes only by the fine of a return. *)
Theorem saldo_es_suma_de_multas (w : Estado) (u : ref) (o : Usuario) :
  alcanzable w → objs_usuario w !! u = Some o →
  multas o = multas_cobradas u (prestamos w).
Proof.
  intros [ops Hrun] Hu.
  apply (saldo_correr ops inicial w Hrun); [apply invariante_inicial| |done].
  intros v ov Hv. simpl in Hv. by rewrite lookup_nil in Hv.
Qed.

Lemma saldo_es_suma_de_multas_witness :
  let w := estado_de (dos_copias_prestadas ++
             [DevolverLibro (9 * MICROSEGUNDOS_POR_DIA) 2 30;
              DevolverLibro (10 * MICROSEGUNDOS_POR_DIA) 2 30]) in
  2500 = multas_cobradas 0 (prestamos w).
Proof.
  intros w.
  apply (saldo_es_suma_de_multas w 0%nat (mkUsuario 2 (cps "Sebastian") 2500)).
  - exists (dos_copias_prestadas ++
             [DevolverLibro (9 * MICROSEGUNDOS_POR_DIA) 2 30;
              DevolverLibro (10 * MICROSEGUNDOS_POR_DIA) 2 30]).
    reflexivity.
  - reflexivity.
Defined.

(** ** Objects keep their identity *)

Lemma ejecutar_objetos op w w' :
  ejecutar op w = Some w' →
  (∀ r o, objs_libro w !! r = Some o →
     ∃ o', objs_libro w' !! r = Some o' ∧ id_libro o' = id_libro o ∧
           titulo o' = titulo o ∧ autor o' = autor o) ∧
  (∀ r o, objs_usuario w !! r = Some o →
     ∃ o', objs_usuario w' !! r = Some o' ∧ id_usuario o' = id_usuario o ∧
           nombre o' = nombre o).
Proof.
  intros Hej.
  assert (Hl : ∀ (f : Libro → Libro) k r o,
            (∀ b, id_libro (f b) = id_libro b ∧ titulo (f b) = titulo b
                  ∧ autor (f b) = autor b) →
            objs_libro w !! r = Some o →
            ∃ o', alter f k (objs_libro w) !! r = Some o' ∧
                  id_libro o' = id_libro o ∧ titulo o' = titulo o ∧
                  autor o' = autor o).
  { intros f k r o Hf Ho. rewrite list_lookup_alter. case_decide as Hk.
    - subst k. rewrite Ho. eexists. split; [reflexivity|]. apply Hf.
    - by exists o. }
  assert (Hu : ∀ m k r o, objs_usuario w !! r = Some o →
            ∃ o', alter (sumar_multa m) k (objs_usuario w) !! r = Some o' ∧
                  id_usuario o' = id_usuario o ∧ nombre o' = nombre o).
  { intros m k r o Ho. rewrite list_lookup_alter. case_decide as Hk.
    - subst k. rewrite Ho. eexists. by split.
    - by exists o. }
  assert (Hrefl : (∀ r o, objs_libro w !! r = Some o →
     ∃ o', objs_libro w !! r = Some o' ∧ id_libro o' = id_libro o ∧
           titulo o' = titulo o ∧ autor o' = autor o) ∧
    (∀ r o, objs_usuario w !! r = Some o →
     ∃ o', objs_usuario w !! r = Some o' ∧ id_usuario o' = id_usuario o ∧
           nombre o' = nombre o)).
  { split; intros r o Ho; by exists o. }
  destruct op as [id t a d|id n|u|l|c|now idu idl|now idu idl]; simpl in Hej.
  - injection Hej as <-. split; [|apply Hrefl]. simpl.
    intros r o Ho. exists o. split; [by apply lookup_app_l_Some|done].
  - injection Hej as <-. split; [apply Hrefl|]. simpl.
    intros r o Ho. exists o. split; [by apply lookup_app_l_Some|done].
  - case_decide; [|done]. by injection Hej as <-.
  - case_decide; [|done]. by injection Hej as <-.
  - by injection Hej as <-.
  - injection Hej as <-.
    destruct (prestar_libro_casos now idu idl w)
      as [-> | (u' & l & ou & ol & _ & _ & _ & _ & _ & ->)]; [done|].
    split; [|apply Hrefl]. simpl. intros r o Ho. by apply Hl.
  - destruct (devolver_libro now idu idl w) as [[m w1]|] eqn:E; [|done].
    injection Hej as <-.
    apply devolver_libro_casos in E as [[_ ->] | (j & q & _ & _ & _ & _ & ->)]; [done|].
    split; simpl; intros r o Ho; [by apply Hl|by apply Hu].
Qed.

Lemma correr_titulos (ops : list Op) (w w' : Estado) :
  correr ops w = Some w' →
  ∀ r o, objs_libro w !! r = Some o →
    ∃ o', objs_libro w' !! r = Some o' ∧ titulo o' = titulo o ∧ autor o' = autor o.
Proof.
  revert w. induction ops as [|op ops IH]; intros w Hrun r o Ho; simpl in Hrun.
  - injection Hrun as <-. by exists o.
  - destruct (ejecutar op w) as [w1|] eqn:E; [|done]. simpl in Hrun.
    destruct (proj1 (ejecutar_objetos _ _ _ E) r o Ho) as (o1 & Ho1 & _ & ? & ?).
    destruct (IH w1 Hrun r o1 Ho1) as (o' & Ho' & ? & ?).
    exists o'. split; [done|]. split; congruence.
Qed.

(** X9.  Whatever a program does, no book or patron object disappears, and
    a book keeps its id, title and author, a patron its id and name: only
    the availability flag and the balance are ever written. *)
Theorem correr_objetos (ops : list Op) (w w' : Estado) :
  correr ops w = Some w' →
  (∀ r o, objs_libro w !! r = Some o →
     ∃ o', objs_libro w' !! r = Some o' ∧ id_libro o' = id_libro o ∧
           titulo o' = titulo o ∧ autor o' = autor o) ∧
  (∀ r o, objs_usuario w !! r = Some o →
     ∃ o', objs_usuario w' !! r = Some o' ∧ id_usuario o' = id_usuario o ∧
           nombre o' = nombre o).
Proof.
  revert w. induction ops as [|op ops IH]; intros w Hrun; simpl in Hrun.
  - injection Hrun as <-. split; intros r o Ho; by exists o.
  - destruct (ejecutar op w) as [w1|] eqn:E; [|done]. simpl in Hrun.
    destruct (ejecutar_objetos _ _ _ E) as [Hl1 Hu1].
    destruct (IH w1 Hrun) as [Hl2 Hu2]. split.
    + intros r o Ho. destruct (Hl1 r o Ho) as (o1 & Ho1 & ? & ? & ?).
      destruct (Hl2 r o1 Ho1) as (o' & Ho' & ? & ? & ?).
      exists o'. split; [done|]. repeat split; congruence.
    + intros r o Ho. destruct (Hu1 r o Ho) as (o1 & Ho1 & ? & ?).
      destruct (Hu2 r o1 Ho1) as (o' & Ho' & ? & ?).
      exists o'. split; [done|]. split; congruence.
Qed.

Lemma correr_objetos_witness :
  let w' := estado_de (escenario ++ [DevolverLibro (9 * MICROSEGUNDOS_POR_DIA) 2 30]) in
  (∃ o', objs_libro w' !! 0%nat = Some o' ∧ id_libro o' = 30 ∧
         titulo o' = cps "1984" ∧ autor o' = cps "George Orwell") ∧
  (∃ o', objs_usuario w' !! 0%nat = Some o' ∧ id_usuario o' = 2 ∧
         nombre o' = cps "Sebastian").
Proof.
  intros w'.
  destruct (correr_objetos
              [PrestarLibro 0 2 30; DevolverLibro (9 * MICROSEGUNDOS_POR_DIA) 2 30]
              (estado_de alta) w' eq_refl) as [Hl Hu].
  split.
  - apply (Hl 0%nat (mkLibro 30 (cps "1984") (cps "George Orwell") true) eq_refl).
  - apply (Hu 0%nat (mkUsuario 2 (cps "Sebastian") 0) eq_refl).
Defined.

(** ** The patron list *)

Lemma ejecutar_usuarios op w w' :
  ejecutar op w = Some w' → usuarios w' = usuarios w ++ registrados [op].
Proof.
  destruct op as [id t a d|id n|u|l|c|now idu idl|now idu idl]; simpl.
  - intros [= <-]. simpl. by rewrite app_nil_r.
  - intros [= <-]. simpl. by rewrite app_nil_r.
  - case_decide; [|done]. by intros [= <-].
  - case_decide; [|done]. intros [= <-]. simpl. by rewrite app_nil_r.
  - intros [= <-]. by rewrite app_nil_r.
  - intros [= <-]. rewrite app_nil_r.
    by destruct (prestar_libro_casos now idu idl w)
      as [-> | (u' & l & ou & ol & _ & _ & _ & _ & _ & ->)].
  - destruct (devolver_libro now idu idl w) as [[m w1]|] eqn:E; [|done].
    intros [= <-]. rewrite app_nil_r.
    by apply devolver_libro_casos in E as [[_ ->] | (j & q & _ & _ & _ & _ & ->)].
Qed.

(** X10.  The patron list only grows at its end: after any program it is
    the list before, followed by the patrons the program registered, in the
    order of the calls, repeated registrations included. *)
Theorem correr_usuarios (ops : list Op) (w w' : Estado) :
  correr ops w = Some w' → usuarios w' = usuarios w ++ registrados ops.
Proof.
  revert w. induction ops as [|op ops IH]; intros w; simpl.
  - intros [= <-]. by rewrite app_nil_r.
  - destruct (ejecutar op w) as [w1|] eqn:E; [|done]. simpl.
    intros Hrun. rewrite (IH w1 Hrun), (ejecutar_usuarios _ _ _ E).
    rewrite <- app_assoc. f_equal. by destruct op.
Qed.

Lemma correr_usuarios_witness :
  usuarios (estado_de (escenario ++ [RegistrarUsuario 0%nat]))
  = usuarios (estado_de escenario) ++ [0%nat].
Proof.
  apply (correr_usuarios [RegistrarUsuario 0%nat] (estado_de escenario)).
  reflexivity.
Defined.

(** ** The first match wins *)

Lemma next_or_none_app_l {A} (cond : A → bool) (xs ys : list A) i x :
  next_or_none cond xs = Some (i, x) →
  next_or_none cond (xs ++ ys) = Some (i, x).
Proof. unfold next_or_none. apply list_find_app_l. Qed.

(** X11.  An id can be carried by several objects, and the earliest one
    wins: once a registered patron has the patron id, registering one more
    patron does not change what a loan for that id does, and once an
    available catalog book has the book id, adding one more book does not
    change it either. *)
Theorem prestar_libro_primero (now : datetime) (idu idl : Z) (w : Estado) :
  (∀ u ou u2, u ∈ usuarios w → objs_usuario w !! u = Some ou →
     id_usuario ou = idu →
     fst (prestar_libro now idu idl (registrar_usuario u2 w))
       = fst (prestar_libro now idu idl w) ∧
     prestamos (snd (prestar_libro now idu idl (registrar_usuario u2 w)))
       = prestamos (snd (prestar_libro now idu idl w)) ∧
     objs_libro (snd (prestar_libro now idu idl (registrar_usuario u2 w)))
       = objs_libro (snd (prestar_libro now idu idl w)))
  ∧ (∀ l ol l2, l ∈ libros w → objs_libro w !! l = Some ol →
     id_libro ol = idl → disponible ol = true →
     fst (prestar_libro now idu idl (agregar_libro l2 w))
       = fst (prestar_libro now idu idl w) ∧
     prestamos (snd (prestar_libro now idu idl (agregar_libro l2 w)))
       = prestamos (snd (prestar_libro now idu idl w)) ∧
     objs_libro (snd (prestar_libro now idu idl (agregar_libro l2 w)))
       = objs_libro (snd (prestar_libro now idu idl w))).
Proof.
  split.
  - intros u ou u2 Hu Hou Hid.
    destruct (next_or_none_is_Some (es_usuario w idu) (usuarios w) u Hu)
      as [[iu u'] Eu]; [apply es_usuario_true; by exists ou|].
    assert (Eu' : next_or_none (es_usuario (registrar_usuario u2 w) idu)
                    (usuarios (registrar_usuario u2 w)) = Some (iu, u'))
      by (by apply next_or_none_app_l).
    destruct (next_or_none (es_libro_disponible w idl) (libros w))
      as [[il l]|] eqn:El.
    + rewrite (prestar_libro_encontrados now _ _ _ _ _ _ _ Eu El).
      by rewrite (prestar_libro_encontrados now _ _ (registrar_usuario u2 w)
                    _ _ _ _ Eu' El).
    + rewrite (prestar_libro_sin_libro now idu idl w El).
      by rewrite (prestar_libro_sin_libro now idu idl (registrar_usuario u2 w) El).
  - intros l ol l2 Hl Hol Hid Hd.
    destruct (next_or_none_is_Some (es_libro_disponible w idl) (libros w) l Hl)
      as [[il l'] El]; [apply es_libro_disponible_true; by exists ol|].
    assert (El' : next_or_none (es_libro_disponible (agregar_libro l2 w) idl)
                    (libros (agregar_libro l2 w)) = Some (il, l'))
      by (by apply next_or_none_app_l).
    destruct (next_or_none (es_usuario w idu) (usuarios w)) as [[iu u]|] eqn:Eu.
    + rewrite (prestar_libro_encontrados now _ _ _ _ _ _ _ Eu El).
      by rewrite (prestar_libro_encontrados now _ _ (agregar_libro l2 w)
                    _ _ _ _ Eu El').
    + rewrite (prestar_libro_sin_usuario now idu idl w Eu).
      by rewrite (prestar_libro_sin_usuario now idu idl (agregar_libro l2 w) Eu).
Qed.

Lemma prestar_libro_primero_witness :
  let w := estado_de alta in
  fst (prestar_libro 4 2 30 (agregar_libro 0%nat w)) = fst (prestar_libro 4 2 30 w) ∧
  prestamos (snd (prestar_libro 4 2 30 (agregar_libro 0%nat w)))
    = prestamos (snd (prestar_libro 4 2 30 w)) ∧
  objs_libro (snd (prestar_libro 4 2 30 (agregar_libro 0%nat w)))
    = objs_libro (snd (prestar_libro 4 2 30 w)).
Proof.
  intros w.
  apply (proj2 (prestar_libro_primero 4 2 30 w) 0%nat
           (mkLibro 30 (cps "1984") (cps "George Orwell") true) 0%nat).
  - left.
  - reflexivity.
  - reflexivity.
  - reflexivity.
Defined.

(** ** Searching while books are lent and returned *)

Lemma coincide_ref_campos lower w w' q l o o' :
  objs_libro w !! l = Some o → objs_libro w' !! l = Some o' →
  titulo o' = titulo o → autor o' = autor o →
  coincide_ref lower w' q l = coincide_ref lower w q l.
Proof.
  intros Ho Ho' Ht Ha. unfold coincide_ref, coincide.
  by rewrite Ho, Ho', Ht, Ha.
Qed.

(** X12.  A search does not look at availability or balances: after any
    program, a query returns what it returned before, followed by the
    matching books among those the program added (for a catalog whose
    references are valid, as in every reachable state).  Lending and
    returning alone never change the result of a search. *)
Theorem buscar_libro_estable (lower : str → str) (q : str) (ops : list Op)
    (w w' : Estado) :
  (∀ l, l ∈ libros w → (l < length (objs_libro w))%nat) →
  correr ops w = Some w' →
  buscar_libro lower q w'
  = buscar_libro lower q w ++ List.filter (coincide_ref lower w' q) (agregados ops).
Proof.
  intros Hval Hrun. unfold buscar_libro.
  rewrite (correr_libros _ _ _ Hrun), List.filter_app. f_equal.
  apply List.filter_ext_in. intros l Hl%list_elem_of_In.
  destruct (lookup_lt_is_Some_2 _ _ (Hval l Hl)) as [o Ho].
  destruct (correr_titulos ops w w' Hrun l o Ho) as (o' & Ho' & Ht & Ha).
  by apply (coincide_ref_campos lower w w' q l o o').
Qed.

Lemma buscar_libro_estable_witness :
  let ops := [PrestarLibro 0 2 30; DevolverLibro 3 2 30;
              NuevoLibro 31 (cps "Animal Farm") (cps "George Orwell") true;
              AgregarLibro 1%nat] in
  buscar_libro lower_ascii (cps "orwell") (estado_de (alta ++ ops))
  = buscar_libro lower_ascii (cps "orwell") (estado_de alta) ++ [1%nat].
Proof.
  intros ops.
  apply (buscar_libro_estable lower_ascii (cps "orwell") ops (estado_de alta)
           (estado_de (alta ++ ops))).
  - intros l Hl. apply list_elem_of_singleton in Hl. subst l. simpl. lia.
  - reflexivity.
Defined.

(** ** What a search finds *)

Lemma str_in_refl (s : str) : str_in s s = true.
Proof. apply str_in_spec. exists [], []. by rewrite app_nil_r. Qed.

(** X13.  A catalog book is always found by its own title and by its own
    author, whatever [str.lower] does.  When [str.lower] lowers ASCII text
    the ASCII way, a book whose title (or author) is ASCII text is found by
    any ASCII query that equals a piece of that title (or author) up to the
    case of the letters A-Z. *)
Theorem buscar_libro_encuentra (lower : str → str) (w : Estado) (l : ref) (o : Libro) :
  l ∈ libros w → objs_libro w !! l = Some o →
  (l ∈ buscar_libro lower (titulo o) w ∧ l ∈ buscar_libro lower (autor o) w)
  ∧ ((∀ s, es_ascii s → lower s = lower_ascii s) →
     ∀ q pre mid suf,
       es_ascii q →
       (es_ascii (titulo o) ∧ titulo o = pre ++ mid ++ suf) ∨
       (es_ascii (autor o) ∧ autor o = pre ++ mid ++ suf) →
       lower_ascii q = lower_ascii mid →
       l ∈ buscar_libro lower q w).
Proof.
  intros Hl Ho. split.
  - split; apply List_filter_elem_of; (split; [done|]);
      unfold coincide_ref, coincide; rewrite Ho, str_in_refl; [done|].
    apply orb_true_r.
  - intros Hlower q pre mid suf Hq Hpieza Hmid.
    apply List_filter_elem_of. split; [done|].
    apply coincide_ref_spec. exists o. split; [done|].
    destruct Hpieza as [[Hascii Ht] | [Hascii Ha]]; [left|right];
      unfold contiene_sin_distinguir;
      rewrite (Hlower _ Hq), (Hlower _ Hascii);
      apply contiene_sin_distinguir_ascii; by exists pre, mid, suf.
Qed.

Lemma buscar_libro_encuentra_witness :
  0%nat ∈ buscar_libro lower_ascii (cps "GE orW") (estado_de escenario).
Proof.
  apply (proj2 (buscar_libro_encuentra lower_ascii (estado_de escenario) 0%nat
                  (mkLibro 30 (cps "1984") (cps "George Orwell") false)
                  ltac:(left) eq_refl)
           (λ s _, eq_refl)
           (cps "GE orW") (cps "Geor") (cps "ge Orw") (cps "ell")).
  - repeat constructor.
  - right. split; [repeat constructor|reflexivity].
  - reflexivity.
Defined.

(** ** The text of a book *)

Lemma Libro_str_last (b : Libro) :
  last (Libro_str b) = Some (if disponible b then 101%N else 111%N).
Proof.
  unfold Libro_str. rewrite !last_app. by destruct (disponible b).
Qed.

(** X14.  The text of a book ([Libro.__str__]) tells whether it is
    available, whatever its title and author are: two books with the same
    text have the same availability flag, and the text of a book always
    changes when the book is lent or returned. *)
Theorem Libro_str_estado (b1 b2 : Libro) :
  (Libro_str b1 = Libro_str b2 → disponible b1 = disponible b2)
  ∧ Libro_str (con_disponible (negb (disponible b1)) b1) ≠ Libro_str b1.
Proof.
  assert (H : ∀ a b, Libro_str a = Libro_str b → disponible a = disponible b).
  { intros a b Heq. pose proof (Libro_str_last a) as Ha.
    rewrite Heq, Libro_str_last in Ha.
    by destruct (disponible a), (disponible b). }
  split; [apply H|].
  intros Heq. apply H in Heq. simpl in Heq. by destruct (disponible b1).
Qed.

Lemma Libro_str_estado_witness :
  disponible (mkLibro 1 (cps "a (b") (cps "c") true)
  = disponible (mkLibro 2 (cps "a") (cps "b (c") true).
Proof.
  apply (proj1 (Libro_str_estado (mkLibro 1 (cps "a (b") (cps "c") true)
                  (mkLibro 2 (cps "a") (cps "b (c") true))).
  reflexivity.
Defined.

(** ** An unavailable book is on loan *)

Lemma prestado_ejecutar op w w' :
  match op with NuevoLibro _ _ _ d => d = true | _ => True end →
  ejecutar op w = Some w' →
  (∀ r b, objs_libro w !! r = Some b → disponible b = false →
     ∃ p, p ∈ prestamos w ∧ libro p = r ∧ devuelto p = false) →
  ∀ r b, objs_libro w' !! r = Some b → disponible b = false →
    ∃ p, p ∈ prestamos w' ∧ libro p = r ∧ devuelto p = false.
Proof.
  intros Hop Hej Hinv.
  destruct op as [id t a d|id n|u|l|c|now idu idl|now idu idl]; simpl in Hej.
  - injection Hej as <-. simpl.
    intros r b [Hr | [_ Hr]]%lookup_app_Some Hb; [by apply (Hinv r b)|].
    apply list_lookup_singleton_Some in Hr as [_ <-]. simpl in Hb. congruence.
  - by injection Hej as <-.
  - case_decide; [|done]. by injection Hej as <-.
  - case_decide; [|done]. by injection Hej as <-.
  - by injection Hej as <-.
  - injection Hej as <-.
    destruct (prestar_libro_casos now idu idl w)
      as [-> | (u & l & ou & ol & _ & _ & _ & Hol & _ & ->)]; [done|].
    simpl. intros r b Hr Hb.
    destruct (decide (r = l)) as [->|Hne].
    + exists (Prestamo_init u l now). split; [|done].
      apply elem_of_app. right. by left.
    + rewrite list_lookup_alter_ne in Hr by done.
      destruct (Hinv r b Hr Hb) as (p & Hp & Hpr & Hpd).
      exists p. split; [|done]. apply elem_of_app. by left.
  - destruct (devolver_libro now idu idl w) as [[m w1]|] eqn:E; [|done].
    injection Hej as <-.
    apply devolver_libro_casos in E as [[_ ->] | (j & q & Hj & Hq & _ & _ & ->)]; [done|].
    simpl. intros r b Hr Hb.
    rewrite list_lookup_alter in Hr. case_decide as Hqr.
    + destruct (objs_libro w !! libro q); simplify_eq/=.
    + destruct (Hinv r b Hr Hb) as (p & [k Hk]%list_elem_of_lookup & Hpr & Hpd).
      exists p. split; [|done]. apply list_elem_of_lookup. exists k.
      rewrite list_lookup_alter_ne; [done|].
      intros ->. rewrite Hj in Hk. injection Hk as ->. congruence.
Qed.

(** X15.  When a program creates every book available (the default of the
    constructor), then in the state it reaches a book is unavailable
    exactly when one of the loans on it is active: a returned book is
    available again, and no book stays unavailable without a loan. *)
Theorem no_disponible_sii_prestado (ops : list Op) (w : Estado) (r : ref) (b : Libro) :
  crea_disponibles ops → correr ops inicial = Some w →
  objs_libro w !! r = Some b →
  (disponible b = false ↔
   ∃ p, p ∈ prestamos w ∧ libro p = r ∧ devuelto p = false).
Proof.
  intros Hops Hrun Hr. split.
  - revert Hr. revert r b.
    assert (Hgen : ∀ w0, correr ops w0 = Some w →
      (∀ r b, objs_libro w0 !! r = Some b → disponible b = false →
         ∃ p, p ∈ prestamos w0 ∧ libro p = r ∧ devuelto p = false) →
      ∀ r b, objs_libro w !! r = Some b → disponible b = false →
         ∃ p, p ∈ prestamos w ∧ libro p = r ∧ devuelto p = false).
    { clear Hrun. induction Hops as [|op ops Hop _ IH]; intros w0 Hrun Hinv;
        simpl in Hrun.
      - by injection Hrun as <-.
      - destruct (ejecutar op w0) as [w1|] eqn:E; [|done]. simpl in Hrun.
        apply (IH w1 Hrun). by eapply prestado_ejecutar. }
    apply (Hgen inicial Hrun). intros r b Hr. simpl in Hr.
    by rewrite lookup_nil in Hr.
  - intros (p & Hp & Hpr & Hpd).
    destruct (invariante_alcanzable w (ex_intro _ ops Hrun)) as (_ & _ & Hact).
    destruct (Hact p Hp Hpd) as (b' & Hb' & Hd).
    rewrite Hpr, Hr in Hb'. by injection Hb' as <-.
Qed.

Lemma no_disponible_sii_prestado_witness :
  disponible (mkLibro 30 (cps "1984") (cps "George Orwell") false) = false ↔
  ∃ p, p ∈ prestamos (estado_de escenario) ∧ libro p = 0%nat ∧ devuelto p = false.
Proof.
  apply (no_disponible_sii_prestado escenario (estado_de escenario) 0%nat).
  - repeat constructor.
  - reflexivity.
  - reflexivity.
Defined.

(** ** A returned book can be lent again *)

(** X16.  In a state a program reaches, when a return finds an active loan
    for the two ids, a loan for the same two ids succeeds right after it,
    whatever fine the return charged: the book is free again, and a balance
    never stops a patron from borrowing. *)
Theorem devolver_y_prestar (now now' : datetime) (idu idl : Z)
    (w w' : Estado) (m : Z) (q : Prestamo) :
  alcanzable w → q ∈ prestamos w → prestamo_activo_de w idu idl q →
  devolver_libro now idu idl w = Some (m, w') →
  ∃ w'', prestar_libro now' idu idl w' = (Some (length (prestamos w)), w'').
Proof.
  intros [ops Hrun] Hq Hact%es_prestamo_activo_true Hdev.
  destruct (next_or_none_is_Some _ _ _ Hq Hact) as [[i p] E].
  rewrite (devolver_libro_encontrado now _ _ _ _ _ E) in Hdev.
  injection Hdev as <- <-.
  apply next_or_none_Some in E as (Hi & Hp%es_prestamo_activo_true & _).
  destruct Hp as (u & b & Hu & Hb & Hidu & Hidl & _).
  destruct (referencias_correr ops inicial w Hrun) with (p := p) as [Hpu Hpl];
    [intros x Hx; by apply elem_of_nil in Hx|by eapply list_elem_of_lookup_2|].
  set (m := multa_por_dias (days (now - fecha_prestamo p))).
  set (w' := {| objs_libro := alter (con_disponible true) (libro p) (objs_libro w);
                objs_usuario := alter (sumar_multa m) (usuario p) (objs_usuario w);
                libros := libros w; usuarios := usuarios w;
                prestamos := alter (cerrar now) i (prestamos w) |}).
  destruct (next_or_none_is_Some (es_usuario w' idu) (usuarios w') (usuario p) Hpu)
    as [[iu u'] Eu].
  { apply es_usuario_true. exists (sumar_multa m u). split; [|done].
    simpl. by rewrite list_lookup_alter_eq, Hu. }
  destruct (next_or_none_is_Some (es_libro_disponible w' idl) (libros w') (libro p) Hpl)
    as [[il l'] El].
  { apply es_libro_disponible_true. exists (con_disponible true b).
    split; [|done]. simpl. by rewrite list_lookup_alter_eq, Hb. }
  rewrite (prestar_libro_encontrados now' _ _ _ _ _ _ _ Eu El).
  simpl. rewrite length_alter. by eexists.
Qed.

Lemma devolver_y_prestar_witness :
  ∃ w'', prestar_libro 77 2 30
           (estado_de (escenario ++ [DevolverLibro (20 * MICROSEGUNDOS_POR_DIA) 2 30]))
         = (Some 1%nat, w'').
Proof.
  apply (devolver_y_prestar (20 * MICROSEGUNDOS_POR_DIA) 77 2 30
           (estado_de escenario)
           (estado_de (escenario ++ [DevolverLibro (20 * MICROSEGUNDOS_POR_DIA) 2 30]))
           6500 (Prestamo_init 0%nat 0%nat 0)).
  - exists escenario. reflexivity.
  - left.
  - by eexists _, _.
  - reflexivity.
Defined.
